(** * pipesync: the sync engine, its pagination driver and its field mapper

    A shallow embedding of [src/mapping.ts], [src/pagination.ts] and
    [src/engine.ts], with the properties the specification states about
    them.

    Conventions of the embedding.
    - A JavaScript value as produced by [JSON.parse] is a [JsVal].  Numbers
      are the integers ([Z]); fractions, [NaN] and the infinities are not
      represented.  Strings are byte strings.
    - An object is a finite map from the names of its own properties to
      their values ([gmap string JsVal]).  Reading a property looks at own
      properties only (what an object inherits from its prototype is not
      represented).  An assignment [o[k] = v] is [Obj.assign] where the
      name comes from a mapping table; the name of a request parameter is
      taken to be an ordinary name, which the assignment sets.
    - [string | null] is [option string]; an optional configuration field
      is an [option]. *)

From Stdlib Require Import ZArith Ascii String List Bool Lia.
From stdpp Require Import gmap strings list fin_maps pretty.

Local Open Scope string_scope.
Local Open Scope Z_scope.

(** ** JavaScript values *)

#[local] Set Warnings "-register-all".

Inductive JsVal : Type :=
| JUndefined
| JNull
| JBool (b : bool)
| JNum (n : Z)
| JStr (s : string)
| JArr (xs : list JsVal)
| JObj (props : gmap string JsVal).

Module Js.

(** [typeof v]. *)
Definition typeof (v : JsVal) : string :=
  match v with
  | JUndefined => "undefined"
  | JNull => "object"
  | JBool _ => "boolean"
  | JNum _ => "number"
  | JStr _ => "string"
  | JArr _ => "object"
  | JObj _ => "object"
  end.

(** [ToBoolean]: what [if (v)], [!v] and [v || w] test. *)
Definition truthy (v : JsVal) : bool :=
  match v with
  | JUndefined | JNull => false
  | JBool b => b
  | JNum n => negb (n =? 0)
  | JStr s => negb (String.eqb s "")
  | JArr _ | JObj _ => true
  end.

(** [v == null], true of [null] and [undefined] only. *)
Definition nullish (v : JsVal) : bool :=
  match v with
  | JUndefined | JNull => true
  | _ => false
  end.

(** [v ?? w]. *)
Definition coalesce (v w : JsVal) : JsVal :=
  if nullish v then w else v.

Definition isArray (v : JsVal) : bool :=
  match v with JArr _ => true | _ => false end.

(** A string is truthy when it is not empty; an optional string field
    of a configuration is truthy when present and not empty. *)
Definition truthyStr (s : string) : bool := negb (String.eqb s "").

Definition truthyOpt (o : option string) : bool :=
  match o with
  | Some s => truthyStr s
  | None => false
  end.

End Js.

(** ** String primitives

    The methods of [String.prototype] that the engine calls, on byte
    strings. *)

Module Str.

(** [s.split(sep)] for a separator of one character.  The result is
    never empty: [split] of the empty string is one empty string. *)
Fixpoint split (sep : ascii) (s : string) : list string :=
  match s with
  | EmptyString => [EmptyString]
  | String c rest =>
      if Ascii.eqb c sep then EmptyString :: split sep rest
      else match split sep rest with
           | hd :: tl => String c hd :: tl
           | [] => [String c EmptyString]
           end
  end.

(** [s.startsWith(p)]. *)
Fixpoint startsWith (p s : string) : bool :=
  match p, s with
  | EmptyString, _ => true
  | String a p', String b s' => Ascii.eqb a b && startsWith p' s'
  | String _ _, EmptyString => false
  end.

(** [s.includes(p)]. *)
Fixpoint includes (p s : string) : bool :=
  startsWith p s ||
  match s with
  | EmptyString => false
  | String _ s' => includes p s'
  end.

(** [s.endsWith(p)]. *)
Fixpoint endsWith (p s : string) : bool :=
  String.eqb p s ||
  match s with
  | EmptyString => false
  | String _ s' => endsWith p s'
  end.

(** [s] without its first [n] characters. *)
Fixpoint drop (n : nat) (s : string) : string :=
  match n, s with
  | O, _ => s
  | S n', String _ s' => drop n' s'
  | S _, EmptyString => EmptyString
  end.

(** [s.replace(p, r)] for a string pattern [p]: the first occurrence of
    [p] is replaced, and [r] is inserted as it is (the engine's
    replacement texts are taken to hold no [$] pattern). *)
Fixpoint replaceFirst (p r s : string) : string :=
  if startsWith p s then r ++ drop (String.length p) s
  else match s with
       | EmptyString => EmptyString
       | String c s' => String c (replaceFirst p r s')
       end.

(** The character class [\w]. *)
Definition isWord (c : ascii) : bool :=
  let n := nat_of_ascii c in
  ((48 <=? n) && (n <=? 57) || (65 <=? n) && (n <=? 90)
   || (97 <=? n) && (n <=? 122) || (n =? 95))%nat.

(** The character class [\s], on the ASCII range. *)
Definition isSpace (c : ascii) : bool :=
  let n := nat_of_ascii c in
  ((n =? 32) || (9 <=? n) && (n <=? 13))%nat.

Definition isDigit (c : ascii) : bool :=
  let n := nat_of_ascii c in ((48 <=? n) && (n <=? 57))%nat.

(** Scanner state of [replaceFields]: outside a placeholder, or after a
    [{] with the word characters read since (latest first). *)
Inductive scan : Type :=
| Outside
| InBrace (field : string).

(** What is copied to the output when a [{] turns out not to open a
    placeholder. *)
Definition flush (st : scan) : string :=
  match st with
  | Outside => EmptyString
  | InBrace fld => String "{" (strings.String.rev fld)
  end.

Fixpoint replaceFields_go (f : string -> string) (st : scan) (s : string)
  : string :=
  match s with
  | EmptyString => flush st
  | String c rest =>
      let resume :=
        if Ascii.eqb c "{" then replaceFields_go f (InBrace EmptyString) rest
        else String c (replaceFields_go f Outside rest) in
      match st with
      | Outside => resume
      | InBrace fld =>
          if isWord c then replaceFields_go f (InBrace (String c fld)) rest
          else if Ascii.eqb c "}" && negb (String.eqb fld EmptyString) then
            f (strings.String.rev fld) ++ replaceFields_go f Outside rest
          else flush st ++ resume
      end
  end.

(** [s.replace(/\{(\w+)\}/g, (_, field) => f(field))]: every
    placeholder, a [{], one or more word characters and a [}], is
    replaced by [f] of the word, left to right; the replaced text is
    not scanned again. *)
Definition replaceFields (f : string -> string) (s : string) : string :=
  replaceFields_go f Outside s.

(** The decimal digits of [s] as a number, when [s] holds digits only. *)
Fixpoint digits (acc : N) (s : string) : option N :=
  match s with
  | EmptyString => Some acc
  | String c rest =>
      if isDigit c
      then digits (acc * 10 + (N_of_ascii c - 48))%N rest
      else None
  end.

End Str.

(** ** Property access and conversion to string *)

Module Obj.

(** An array index: a property name that is the canonical decimal
    writing of a natural number. *)
Definition arrayIndex (k : string) : option nat :=
  match k with
  | EmptyString => None
  | _ =>
      match Str.digits 0%N k with
      | Some n => if String.eqb (pretty n) k then Some (N.to_nat n) else None
      | None => None
      end
  end.

(** [v[k]] for a [v] of type object: an own property of an object, an
    element or the [length] of an array.  A missing property reads as
    [undefined]. *)
Definition get (v : JsVal) (k : string) : JsVal :=
  match v with
  | JObj props => default JUndefined (props !! k)
  | JArr xs =>
      if String.eqb k "length" then JNum (Z.of_nat (length xs))
      else match arrayIndex k with
           | Some i => default JUndefined (xs !! i)
           | None => JUndefined
           end
  | _ => JUndefined
  end.

(** [o[k] = v] on an object that an object literal created.  Every name
    but [__proto__] becomes an own property of [o], or changes the one
    there is.  [__proto__] is the accessor that such an object inherits
    from [Object.prototype]: the assignment calls its setter, which
    changes the prototype of [o] (for an object or [null]) or does nothing,
    and [o] gets no own property. *)
Definition assign (k : string) (v : JsVal) (props : gmap string JsVal)
  : gmap string JsVal :=
  if String.eqb k "__proto__" then props else <[k := v]> props.

(** [String(v)], where it returns a text and the text is the decimal one:
    see [printable]. *)
Fixpoint toString (v : JsVal) : string :=
  match v with
  | JUndefined => "undefined"
  | JNull => "null"
  | JBool true => "true"
  | JBool false => "false"
  | JNum n => pretty n
  | JStr s => s
  | JArr xs =>
      let element x := if Js.nullish x then EmptyString else toString x in
      (fix join (l : list JsVal) : string :=
         match l with
         | [] => EmptyString
         | [x] => element x
         | x :: rest => element x ++ "," ++ join rest
         end) xs
  | JObj _ => "[object Object]"
  end.

(** The values within which [String] returns what [toString] gives.  An
    object of a parsed response with an own property [toString] has no
    function there, and [String] of it throws a [TypeError], as [String] of
    an array that holds one does; a number from [1e21] on is written with
    an exponent.  [printable v] says that neither occurs in [v], at any
    depth. *)
Fixpoint printable (v : JsVal) : bool :=
  match v with
  | JNum n => Z.abs n <? 10 ^ 21
  | JArr xs => forallb printable xs
  | JObj props =>
      bool_decide (props !! "toString" = None)
      && map_fold (fun _ x rest => printable x && rest) true props
  | _ => true
  end.

End Obj.

(** ** mapping.ts *)

(** [resolve]'s loop over the parts of the path. *)
Fixpoint resolve_walk (current : JsVal) (parts : list string) : JsVal :=
  match parts with
  | [] => current
  | part :: rest =>
      if Js.nullish current then JUndefined
      else if negb (String.eqb (Js.typeof current) "object") then JUndefined
      else resolve_walk (Obj.get current part) rest
  end.

Definition resolve (obj : JsVal) (path : string) : JsVal :=
  if negb (Js.truthy obj) || negb (String.eqb (Js.typeof obj) "object")
  then JUndefined
  else resolve_walk obj (Str.split "." path).

(** [applyMapping]: the loop over [Object.entries(mapping)] assigns
    [result[targetField] = value ?? null] to the object [{}].  The entries
    of an object have distinct names, so the order of the loop does not
    show in the own properties of the result. *)
Definition applyMapping (item : JsVal) (mapping : gmap string string)
  : gmap string JsVal :=
  map_fold
    (fun targetField sourcePath result =>
       let value := resolve item sourcePath in
       Obj.assign targetField (Js.coalesce value JNull) result)
    ∅ mapping.

Definition extractId (item : JsVal) (idField : string) : option string :=
  let value := resolve item idField in
  if Js.nullish value then None else Some (Obj.toString value).

Definition buildExternalUrl (template : string) (item : JsVal) : string :=
  Str.replaceFields
    (fun field =>
       let value := resolve item field in
       if Js.nullish value then EmptyString else Obj.toString value)
    template.

(** ** types.ts: the pagination configuration *)

Inductive PaginationType : Type :=
| Cursor
| Offset
| SyncToken
| LinkHeader
| PageNumber
| NoPagination.

Record PaginationConfig : Type := {
  pg_type : PaginationType;
  requestParam : option string;
  responseField : option string;
  itemsField : option string;
  pageSize : option Z
}.

(** ** pagination.ts *)

Record PaginationResult : Type := {
  items : list JsVal;
  nextCursor : option string;
  done : bool
}.

(** [config.pageSize || 100]. *)
Definition pageSizeOr100 (config : PaginationConfig) : Z :=
  match pageSize config with
  | Some n => if n =? 0 then 100 else n
  | None => 100
  end.

(** [a || b] on an optional string [a]. *)
Definition orString (a : option string) (b : string) : string :=
  match a with
  | Some s => if Js.truthyStr s then s else b
  | None => b
  end.

Module Link.

Definition quote : ascii := ascii_of_nat 34.

(** The text [rel="next"]. *)
Definition relNext : string :=
  "rel=" ++ String quote ("next" ++ String quote EmptyString).

(** The characters before the first [>], and what follows it. *)
Fixpoint untilClose (s : string) : option (string * string) :=
  match s with
  | EmptyString => None
  | String c rest =>
      if Ascii.eqb c ">" then Some (EmptyString, rest)
      else match untilClose rest with
           | Some (url, after) => Some (String c url, after)
           | None => None
           end
  end.

Fixpoint skipSpaces (s : string) : string :=
  match s with
  | String c rest => if Str.isSpace c then skipSpaces rest else s
  | EmptyString => s
  end.

(** A match of [([^>]+)>;\s*rel="next"] at the start of [s] (the text
    after a [<]): the captured group. *)
Definition matchHere (s : string) : option string :=
  match untilClose s with
  | Some (String c url, String semi after) =>
      if Ascii.eqb semi ";" && Str.startsWith relNext (skipSpaces after)
      then Some (String c url)
      else None
  | _ => None
  end.

(** [linkHeader.match(/<([^>]+)>;\s*rel="next"/)]: the group of the
    leftmost match. *)
Fixpoint matchNext (s : string) : option string :=
  match s with
  | EmptyString => None
  | String c rest =>
      if Ascii.eqb c "<" then
        match matchHere rest with
        | Some url => Some url
        | None => matchNext rest
        end
      else matchNext rest
  end.

End Link.

(** [cursor ? String(cursor) : null] *)
Definition stringOrNull (v : JsVal) : option string :=
  if Js.truthy v then Some (Obj.toString v) else None.

(** [!nextCursor] on a [string | null]. *)
Definition noCursor (c : option string) : bool := negb (Js.truthyOpt c).

Definition extractPage (response : JsVal) (config : PaginationConfig)
    (headers : option (gmap string string)) : PaginationResult :=
  if negb (Js.truthy response)
     || negb (String.eqb (Js.typeof response) "object")
  then {| items := []; nextCursor := None; done := true |}
  else
    let items :=
      if Js.truthyOpt (itemsField config) then
        match resolve response (default EmptyString (itemsField config)) with
        | JArr raw => raw
        | _ => []
        end
      else match response with
           | JArr xs => xs
           | _ => []
           end in
    match pg_type config with
    | Cursor =>
        let nextCursor :=
          if Js.truthyOpt (responseField config) then
            stringOrNull
              (resolve response (default EmptyString (responseField config)))
          else None in
        {| items := items; nextCursor := nextCursor;
           done := noCursor nextCursor |}
    | Offset =>
        let pageSize := pageSizeOr100 config in
        if Z.of_nat (length items) <? pageSize
        then {| items := items; nextCursor := None; done := true |}
        else {| items := items; nextCursor := Some "continue"; done := false |}
    | SyncToken =>
        let nextCursor :=
          if Js.truthyOpt (responseField config) then
            stringOrNull
              (resolve response (default EmptyString (responseField config)))
          else None in
        {| items := items; nextCursor := nextCursor;
           done := (length items =? 0)%nat && noCursor nextCursor |}
    | LinkHeader =>
        let linkHeader :=
          match headers with
          | Some h => orString (h !! "link") (orString (h !! "Link") EmptyString)
          | None => EmptyString
          end in
        let nextCursor := Link.matchNext linkHeader in
        {| items := items; nextCursor := nextCursor;
           done := noCursor nextCursor |}
    | PageNumber =>
        let pageSize := pageSizeOr100 config in
        if Z.of_nat (length items) <? pageSize
        then {| items := items; nextCursor := None; done := true |}
        else {| items := items; nextCursor := Some "continue"; done := false |}
    | NoPagination =>
        {| items := items; nextCursor := None; done := true |}
    end.

(** [applyCursor]: [params] is the copy [{ ...queryParams }]; an
    assignment [params[k] = v] is an insertion. *)
Definition applyCursor (queryParams : gmap string JsVal)
    (config : PaginationConfig) (cursor : option string) (currentOffset : Z)
  : gmap string JsVal :=
  if noCursor cursor
     && negb (match pg_type config with
              | Offset | PageNumber => true
              | _ => false
              end)
  then queryParams
  else
    let params := queryParams in
    let key := default EmptyString (requestParam config) in
    match pg_type config with
    | Cursor =>
        if Js.truthyOpt cursor && Js.truthyOpt (requestParam config)
        then <[key := JStr (default EmptyString cursor)]> params
        else params
    | Offset =>
        if Js.truthyOpt (requestParam config)
        then <[key := JNum currentOffset]> params
        else params
    | SyncToken =>
        if Js.truthyOpt cursor && Js.truthyOpt (requestParam config)
        then <[key := JStr (default EmptyString cursor)]> params
        else params
    | PageNumber =>
        if Js.truthyOpt (requestParam config) then
          let page := currentOffset / pageSizeOr100 config + 1 in
          <[key := JNum page]> params
        else params
    | LinkHeader | NoPagination => params
    end.

(** ** types.ts: mapping, state and result *)

Record RequestConfig : Type := {
  method : option string;
  path : option string;
  queryParams : option (gmap string JsVal);
  body : option (gmap string JsVal);
  headers : option (gmap string string)
}.

Record DetailConfig : Type := {
  detail_actionId : string;
  detail_path : string;
  pathVar : string;
  detail_idField : string;
  detail_queryParams : option (gmap string JsVal)
}.

Record RecordConfig : Type := {
  record_type : string;
  record_mapping : gmap string string;
  tags : option (list string);
  naturalKeys : option (list string)
}.

Record ExternalRefConfig : Type := {
  system : string;
  idField : string;
  urlTemplate : option string
}.

Inductive IncrementalType : Type :=
| QueryFilter
| IncSyncToken
| SortFilter.

Record IncrementalConfig : Type := {
  inc_type : IncrementalType;
  param : option string;
  template : option string;
  tokenField : option string
}.

Record SyncMapping : Type := {
  name : string;
  platform : string;
  connectionKey : string;
  actionId : string;
  request : RequestConfig;
  pagination : PaginationConfig;
  detail : option DetailConfig;
  record : RecordConfig;
  externalRef : ExternalRefConfig;
  incremental : option IncrementalConfig
}.

Inductive Status : Type :=
| Idle
| Running
| Completed
| Error.

Record SyncState : Type := {
  lastSyncAt : option string;
  lastCursor : option string;
  syncToken : option string;
  totalSynced : Z;
  lastRunRecords : Z;
  status : Status;
  lastError : option string
}.

Record SyncResult : Type := {
  res_name : string;
  res_new : Z;
  res_updated : Z;
  res_skipped : Z;
  res_errors : Z;
  res_duration : string;
  res_status : Status;
  res_error : option string
}.

(** ** pica-client.ts and output/interface.ts: what the engine calls

    The transport and the destination store are outside the engine.  They
    act on a world [W]; a call returns its value or the message of the
    [Error] it throws, and the world after the call. *)

Record PicaRequestOptions : Type := {
  opt_secretKey : string;
  opt_connectionKey : string;
  opt_actionId : string;
  opt_baseUrl : option string;
  opt_method : option string;
  opt_path : option string;
  opt_queryParams : option (gmap string JsVal);
  opt_body : option (gmap string JsVal);
  opt_headers : option (gmap string string)
}.

Record PicaResponse : Type := {
  data : JsVal;
  resp_headers : gmap string string;
  resp_status : Z
}.

Inductive Action : Type :=
| Inserted
| Updated.

Record UpsertRecord : Type := {
  up_type : string;
  up_data : gmap string JsVal;
  up_tags : option (list string);
  up_keys : list string
}.

Record RefRecord : Type := {
  ref_system : string;
  ref_externalId : string;
  ref_url : option string
}.

Definition effect (W A : Type) : Type := W -> (string + A) * W.

Class PicaClient (W : Type) : Type := {
  picaRequest : PicaRequestOptions -> effect W PicaResponse;
  picaRequestUrl : string -> string -> string -> string -> effect W PicaResponse
}.

Class SyncOutput (W : Type) : Type := {
  upsert : UpsertRecord -> effect W (string * Action);
  findByRef : string -> string -> effect W (option string);
  addRef : string -> RefRecord -> effect W unit
}.

(** [Date.now()], in milliseconds, with the two formats the engine prints:
    [new Date(t).toISOString()] and [(ms / 1000).toFixed(1)]. *)
Class Clock (W : Type) : Type := {
  now : W -> Z;
  toISOString : Z -> string;
  toFixed1 : Z -> string
}.

(** ** state.ts: [loadState] and [saveState]

    The state file of a mapping either does not exist or holds a state. *)

Definition defaultState : SyncState :=
  {| lastSyncAt := None; lastCursor := None; syncToken := None;
     totalSynced := 0; lastRunRecords := 0; status := Idle;
     lastError := None |}.

Definition loadState (file : option SyncState) : SyncState :=
  match file with
  | Some st => st
  | None => defaultState
  end.

(** ** engine.ts

    *** The run

    [pull] keeps its counters, its position and the state object in local
    variables, writes the state file, and calls the transport and the
    store.  A [Run] holds all of it.  A computation of the engine takes a
    run to an outcome and the run it leaves: when it throws, the
    variables keep the values they had, which is what the [catch] block of
    [pull] reads. *)

Record Run (W : Type) : Type := {
  newCount : Z;
  updatedCount : Z;
  skippedCount : Z;
  errorCount : Z;
  offset : Z;
  cursor : option string;
  state : SyncState;
  stateFile : option SyncState;
  world : W
}.

Arguments newCount {W}.
Arguments updatedCount {W}.
Arguments skippedCount {W}.
Arguments errorCount {W}.
Arguments offset {W}.
Arguments cursor {W}.
Arguments state {W}.
Arguments stateFile {W}.
Arguments world {W}.

Inductive Outcome (A : Type) : Type :=
| Returned (a : A)
| Thrown (message : string)
| OutOfFuel.

Arguments Returned {A}.
Arguments Thrown {A}.
Arguments OutOfFuel {A}.

Definition M (W A : Type) : Type := Run W -> Outcome A * Run W.

Section Monad.
Context {W : Type}.

Definition ret {A} (a : A) : M W A := fun r => (Returned a, r).

Definition bind {A B} (m : M W A) (k : A -> M W B) : M W B :=
  fun r =>
    match m r with
    | (Returned a, r') => k a r'
    | (Thrown e, r') => (Thrown e, r')
    | (OutOfFuel, r') => (OutOfFuel, r')
    end.

(** [try { m } catch (err) { handler(err.message) }] *)
Definition tryCatch {A} (m : M W A) (handler : string -> M W A) : M W A :=
  fun r =>
    match m r with
    | (Thrown e, r') => handler e r'
    | other => other
    end.

Definition gets {A} (f : Run W -> A) : M W A := fun r => (Returned (f r), r).

Definition modify (f : Run W -> Run W) : M W unit :=
  fun r => (Returned tt, f r).

Definition outOfFuel {A} : M W A := fun r => (OutOfFuel, r).

Definition set_world (w : W) (r : Run W) : Run W :=
  {| newCount := newCount r; updatedCount := updatedCount r;
     skippedCount := skippedCount r; errorCount := errorCount r;
     offset := offset r; cursor := cursor r; state := state r;
     stateFile := stateFile r; world := w |}.

(** [await e]: the call acts on the world; a rejection is thrown. *)
Definition await {A} (e : effect W A) : M W A :=
  fun r =>
    match e (world r) with
    | (inl message, w) => (Thrown message, set_world w r)
    | (inr a, w) => (Returned a, set_world w r)
    end.

(** [for (const x of xs) { body(x) }] *)
Fixpoint forEach {A} (body : A -> M W unit) (xs : list A) : M W unit :=
  match xs with
  | [] => ret tt
  | x :: rest => bind (body x) (fun _ => forEach body rest)
  end.

(** [errorCount++], [newCount++], [updatedCount++] *)
Definition incrErrorCount (r : Run W) : Run W :=
  {| newCount := newCount r; updatedCount := updatedCount r;
     skippedCount := skippedCount r; errorCount := errorCount r + 1;
     offset := offset r; cursor := cursor r; state := state r;
     stateFile := stateFile r; world := world r |}.

Definition incrNewCount (r : Run W) : Run W :=
  {| newCount := newCount r + 1; updatedCount := updatedCount r;
     skippedCount := skippedCount r; errorCount := errorCount r;
     offset := offset r; cursor := cursor r; state := state r;
     stateFile := stateFile r; world := world r |}.

Definition incrUpdatedCount (r : Run W) : Run W :=
  {| newCount := newCount r; updatedCount := updatedCount r + 1;
     skippedCount := skippedCount r; errorCount := errorCount r;
     offset := offset r; cursor := cursor r; state := state r;
     stateFile := stateFile r; world := world r |}.

(** [cursor = c; offset += n] *)
Definition advance (c : option string) (n : Z) (r : Run W) : Run W :=
  {| newCount := newCount r; updatedCount := updatedCount r;
     skippedCount := skippedCount r; errorCount := errorCount r;
     offset := offset r + n; cursor := c; state := state r;
     stateFile := stateFile r; world := world r |}.

(** An assignment to fields of the [state] object. *)
Definition set_state (st : SyncState) (r : Run W) : Run W :=
  {| newCount := newCount r; updatedCount := updatedCount r;
     skippedCount := skippedCount r; errorCount := errorCount r;
     offset := offset r; cursor := cursor r; state := st;
     stateFile := stateFile r; world := world r |}.

(** [saveState(baseDir, mapping.name, state)] *)
Definition saveState (r : Run W) : Run W :=
  {| newCount := newCount r; updatedCount := updatedCount r;
     skippedCount := skippedCount r; errorCount := errorCount r;
     offset := offset r; cursor := cursor r; state := state r;
     stateFile := Some (state r); world := world r |}.

End Monad.

#[global] Instance M_ret {W} : MRet (M W) := fun A => @ret W A.
#[global] Instance M_bind {W} : MBind (M W) := fun A B k m => @bind W A B m k.

(** *** The engine *)

Record EngineOptions : Type := {
  baseDir : string;
  secretKey : string;
  picaBaseUrl : option string;
  full : bool;
  verbose : bool
}.

(** [applyIncrementalFilter] *)
Definition applyIncrementalFilter (queryParams : gmap string JsVal)
    (incremental : IncrementalConfig) (st : SyncState) : gmap string JsVal :=
  let params := queryParams in
  let key := default EmptyString (param incremental) in
  match inc_type incremental with
  | QueryFilter =>
      if Js.truthyOpt (param incremental)
         && Js.truthyOpt (template incremental)
         && Js.truthyOpt (lastSyncAt st)
      then
        let lastSync := default EmptyString (lastSyncAt st) in
        let lastSyncDate := hd EmptyString (Str.split "T" lastSync) in
        let value :=
          Str.replaceFirst "{lastSyncAt}" lastSync
            (Str.replaceFirst "{lastSyncDate}" lastSyncDate
               (default EmptyString (template incremental))) in
        <[key := JStr value]> params
      else params
  | IncSyncToken =>
      if Js.truthyOpt (param incremental) && Js.truthyOpt (syncToken st)
      then <[key := JStr (default EmptyString (syncToken st))]> params
      else params
  | SortFilter =>
      if Js.truthyOpt (param incremental) && Js.truthyOpt (lastSyncAt st)
      then <[key := JStr (default EmptyString (lastSyncAt st))]> params
      else params
  end.

(** [const isFirstRun = !state.lastSyncAt] *)
Definition isFirstRun (st : SyncState) : bool :=
  negb (Js.truthyOpt (lastSyncAt st)).

(** The cursor a run starts from: [null], or the saved cursor "if not
    first run and not full resync". *)
Definition initialCursor (fullSync : bool) (st : SyncState) : option string :=
  if negb fullSync && negb (isFirstRun st) && Js.truthyOpt (lastCursor st)
  then lastCursor st
  else None.

(** Whether a page request goes through [applyIncrementalFilter]. *)
Definition usesIncremental (fullSync firstRun : bool) (mapping : SyncMapping)
    (st : SyncState) : bool :=
  negb fullSync && negb firstRun
  && match incremental mapping with Some _ => true | None => false end
  && Js.truthyOpt (lastSyncAt st).

(** The query parameters of a page request, before the rewrite for
    [POST]. *)
Definition pageQueryParams (fullSync firstRun : bool) (mapping : SyncMapping)
    (st : SyncState) (cur : option string) (off : Z) : gmap string JsVal :=
  let queryParams := default ∅ (queryParams (request mapping)) in
  let queryParams :=
    match incremental mapping with
    | Some inc =>
        if usesIncremental fullSync firstRun mapping st
        then applyIncrementalFilter queryParams inc st
        else queryParams
    | None => queryParams
    end in
  applyCursor queryParams (pagination mapping) cur off.

(** "For POST requests, merge pagination params into the body": the query
    parameters and the body that are sent. *)
Definition mergeIntoBody (mapping : SyncMapping)
    (queryParams : gmap string JsVal)
  : gmap string JsVal * option (gmap string JsVal) :=
  match body (request mapping) with
  | Some body =>
      if bool_decide (method (request mapping) = Some "POST")
         && Js.truthyOpt (requestParam (pagination mapping))
      then
        let key := default EmptyString (requestParam (pagination mapping)) in
        match default JUndefined (queryParams !! key) with
        | JUndefined => (queryParams, Some body)
        | paginationValue =>
            (delete key queryParams, Some (<[key := paginationValue]> body))
        end
      else (queryParams, Some body)
  | None => (queryParams, None)
  end.

(** "Resolve natural key templates from mapped data": the key a template
    gives, when it is added. *)
Definition naturalKey (mappedData : gmap string JsVal) (template : string)
  : option string :=
  let resolved :=
    Str.replaceFields
      (fun field =>
         let val := default JUndefined (mappedData !! field) in
         if Js.nullish val then EmptyString else Obj.toString val)
      template in
  if Js.truthyStr resolved && negb (Str.includes ":" resolved)
  then Some resolved
  else if Js.truthyStr resolved && negb (Str.endsWith ":" resolved)
          && negb (Str.includes "::" resolved)
  then Some resolved
  else None.

(** The [keys] array of an item. *)
Definition dedupKeys (mapping : SyncMapping) (externalId : string)
    (mappedData : gmap string JsVal) : list string :=
  (system (externalRef mapping) ++ ":" ++ externalId)
  :: match naturalKeys (record mapping) with
     | Some templates => omap (naturalKey mappedData) templates
     | None => []
     end.

Section Engine.
Context {W : Type} `{!PicaClient W, !SyncOutput W, !Clock W}.

Variable mapping : SyncMapping.
Variable options : EngineOptions.

Definition baseUrl : string :=
  orString (picaBaseUrl options) "https://api.picaos.com".

(** "Fetch detail if configured": the item the fields are mapped from. *)
Definition fetchDetail (item : JsVal) : M W JsVal :=
  match detail mapping with
  | Some d =>
      tryCatch
        (match extractId item (detail_idField d) with
         | Some detailId =>
             if Js.truthyStr detailId then
               let detailPath :=
                 Str.replaceFirst ("{" ++ pathVar d ++ "}") detailId
                   (detail_path d) in
               detailResponse ← await (picaRequest
                 {| opt_secretKey := secretKey options;
                    opt_connectionKey := connectionKey mapping;
                    opt_actionId := detail_actionId d;
                    opt_baseUrl := Some baseUrl;
                    opt_method := Some "GET";
                    opt_path := Some detailPath;
                    opt_queryParams := detail_queryParams d;
                    opt_body := None;
                    opt_headers := None |});
               if Js.truthy (data detailResponse)
                  && String.eqb (Js.typeof (data detailResponse)) "object"
               then mret (data detailResponse)
               else mret item
             else mret item
         | None => mret item
         end)
        (fun _ => mret item)
  | None => mret item
  end.

(** The body of the loop over the items of a page. *)
Definition processItem (item : JsVal) : M W unit :=
  tryCatch
    (match extractId item (idField (externalRef mapping)) with
     | Some externalId =>
         if Js.truthyStr externalId then
           itemData ← fetchDetail item;
           let mappedData :=
             applyMapping itemData (record_mapping (record mapping)) in
           let keys := dedupKeys mapping externalId mappedData in
           upserted ← await (upsert
             {| up_type := record_type (record mapping);
                up_data := mappedData;
                up_tags := tags (record mapping);
                up_keys := keys |});
           let externalUrl :=
             match urlTemplate (externalRef mapping) with
             | Some t =>
                 if Js.truthyStr t then Some (buildExternalUrl t item)
                 else None
             | None => None
             end in
           await (addRef upserted.1
             {| ref_system := system (externalRef mapping);
                ref_externalId := externalId;
                ref_url := externalUrl |});;
           match upserted.2 with
           | Updated => modify incrUpdatedCount
           | Inserted => modify incrNewCount
           end
         else modify incrErrorCount
     | None => modify incrErrorCount
     end)
    (fun _ => modify incrErrorCount).

(** "Make the API request" *)
Definition fetchPage (queryParams : gmap string JsVal)
    (body : option (gmap string JsVal)) (cur : option string)
  : M W PicaResponse :=
  match pg_type (pagination mapping) with
  | LinkHeader =>
      if Js.truthyOpt cur then
        await (picaRequestUrl (default EmptyString cur) (secretKey options)
                 (connectionKey mapping) (actionId mapping))
      else
        await (picaRequest
          {| opt_secretKey := secretKey options;
             opt_connectionKey := connectionKey mapping;
             opt_actionId := actionId mapping;
             opt_baseUrl := Some baseUrl;
             opt_method := method (request mapping);
             opt_path := path (request mapping);
             opt_queryParams := Some queryParams;
             opt_body := body;
             opt_headers := headers (request mapping) |})
  | _ =>
      await (picaRequest
        {| opt_secretKey := secretKey options;
           opt_connectionKey := connectionKey mapping;
           opt_actionId := actionId mapping;
           opt_baseUrl := Some baseUrl;
           opt_method := method (request mapping);
           opt_path := path (request mapping);
           opt_queryParams := Some queryParams;
           opt_body := body;
           opt_headers := headers (request mapping) |})
  end.

(** [state.lastCursor = c] *)
Definition set_lastCursor (c : option string) (st : SyncState) : SyncState :=
  {| lastSyncAt := lastSyncAt st; lastCursor := c;
     syncToken := syncToken st; totalSynced := totalSynced st;
     lastRunRecords := lastRunRecords st; status := status st;
     lastError := lastError st |}.

(** One turn of [while (!done)]: the value of [done] after it. *)
Definition pageStep (firstRun : bool) : M W bool :=
  st ← gets state;
  cur ← gets cursor;
  off ← gets offset;
  let queryParams :=
    pageQueryParams (full options) firstRun mapping st cur off in
  let sent := mergeIntoBody mapping queryParams in
  response ← fetchPage sent.1 sent.2 cur;
  let page :=
    extractPage (data response) (pagination mapping)
      (Some (resp_headers response)) in
  forEach processItem (items page);;
  modify (advance (nextCursor page) (Z.of_nat (length (items page))));;
  modify (fun r => saveState (set_state (set_lastCursor (cursor r) (state r)) r));;
  mret (done page).

(** [while (!done) { ... }]; [fuel] bounds the number of pages. *)
Fixpoint pageLoop (fuel : nat) (firstRun : bool) : M W unit :=
  match fuel with
  | O => outOfFuel
  | S fuel' =>
      finished ← pageStep firstRun;
      if (finished : bool) then mret tt else pageLoop fuel' firstRun
  end.

(** "Save sync token if applicable" *)
Definition captureSyncToken (r : Run W) : Run W :=
  match incremental mapping with
  | Some inc =>
      match inc_type inc with
      | IncSyncToken =>
          if Js.truthyOpt (tokenField inc) then
            set_state
              {| lastSyncAt := lastSyncAt (state r);
                 lastCursor := lastCursor (state r);
                 syncToken := cursor r;
                 totalSynced := totalSynced (state r);
                 lastRunRecords := lastRunRecords (state r);
                 status := status (state r);
                 lastError := lastError (state r) |} r
          else r
      | _ => r
      end
  | None => r
  end.

(** "Finalize state" *)
Definition finalize (r : Run W) : Run W :=
  saveState
    (set_state
       {| lastSyncAt := Some (toISOString (now (world r)));
          lastCursor := None;
          syncToken := syncToken (state r);
          totalSynced := totalSynced (state r) + newCount r;
          lastRunRecords := newCount r;
          status := Completed;
          lastError := None |} r).

(** The [try] block of [pull]. *)
Definition pullTry (fuel : nat) (firstRun : bool) (startTime : Z)
  : M W SyncResult :=
  pageLoop fuel firstRun;;
  modify captureSyncToken;;
  duration ← gets (fun r => toFixed1 (now (world r) - startTime));
  modify finalize;;
  r ← gets id;
  mret {| res_name := name mapping;
          res_new := newCount r;
          res_updated := updatedCount r;
          res_skipped := skippedCount r;
          res_errors := errorCount r;
          res_duration := duration ++ "s";
          res_status := Completed;
          res_error := None |}.

(** The [catch] block of [pull]. *)
Definition pullCatch (startTime : Z) (errorMsg : string) : M W SyncResult :=
  duration ← gets (fun r => toFixed1 (now (world r) - startTime));
  modify (fun r =>
    saveState
      (set_state
         {| lastSyncAt := lastSyncAt (state r);
            lastCursor := lastCursor (state r);
            syncToken := syncToken (state r);
            totalSynced := totalSynced (state r);
            lastRunRecords := newCount r;
            status := Error;
            lastError := Some errorMsg |} r));;
  r ← gets id;
  mret {| res_name := name mapping;
          res_new := newCount r;
          res_updated := updatedCount r;
          res_skipped := skippedCount r;
          res_errors := errorCount r + 1;
          res_duration := duration ++ "s";
          res_status := Error;
          res_error := Some errorMsg |}.

(** The run as [pull] sets it up: the state is loaded and saved as
    running, the counters are zero, the cursor is the initial one. *)
Definition startRun (file : option SyncState) (w : W) : Run W :=
  let loaded := loadState file in
  let st :=
    {| lastSyncAt := lastSyncAt loaded; lastCursor := lastCursor loaded;
       syncToken := syncToken loaded; totalSynced := totalSynced loaded;
       lastRunRecords := lastRunRecords loaded; status := Running;
       lastError := None |} in
  {| newCount := 0; updatedCount := 0; skippedCount := 0; errorCount := 0;
     offset := 0; cursor := initialCursor (full options) loaded;
     state := st; stateFile := Some st; world := w |}.

(** [pull(mapping, options)], on the state file [file] and the world [w].
    Progress messages of [verbose] are not represented. *)
Definition pull (fuel : nat) (file : option SyncState) (w : W)
  : Outcome SyncResult * Run W :=
  let startTime := now w in
  let firstRun := isFirstRun (loadState file) in
  tryCatch (pullTry fuel firstRun startTime) (pullCatch startTime)
    (startRun file w).

End Engine.

(** ** A scripted world

    The transport answers from a script and records what it is sent; the
    store deduplicates on the keys it has seen, as the line-oriented
    emitter of [output/stdout.ts] does.  It runs the engine on concrete
    scenarios. *)

Module Fake.

Record World : Type := {
  script : list (string + PicaResponse);
  sent : list PicaRequestOptions;
  seen : gset string;
  counter : nat;
  time : Z
}.

Definition answer (opts : PicaRequestOptions) : effect World PicaResponse :=
  fun w =>
    match script w with
    | [] => (inl "no more responses", w)
    | r :: rest =>
        (r, {| script := rest; sent := sent w ++ [opts]; seen := seen w;
               counter := counter w; time := time w + 100 |})
    end.

#[global] Instance client : PicaClient World := {
  picaRequest := answer;
  picaRequestUrl fullUrl secret connection action :=
    answer {| opt_secretKey := secret; opt_connectionKey := connection;
              opt_actionId := action; opt_baseUrl := None;
              opt_method := None; opt_path := Some fullUrl;
              opt_queryParams := None; opt_body := None;
              opt_headers := None |}
}.

#[global] Instance output : SyncOutput World := {
  upsert rec w :=
    let id := "record-" ++ pretty (S (counter w)) in
    let action :=
      if existsb (fun key => bool_decide (key ∈ seen w)) (up_keys rec)
      then Updated else Inserted in
    (inr (id, action),
     {| script := script w; sent := sent w;
        seen := seen w ∪ list_to_set (up_keys rec);
        counter := S (counter w); time := time w |});
  findByRef sys externalId w := (inr None, w);
  addRef recordId ref w :=
    (inr tt,
     {| script := script w; sent := sent w;
        seen := seen w ∪ {[ ref_system ref ++ ":" ++ ref_externalId ref ]};
        counter := counter w; time := time w |})
}.

#[global] Instance clock : Clock World := {
  now := time;
  toISOString t := "T" ++ pretty t;
  toFixed1 ms := pretty (ms / 1000) ++ "." ++ pretty ((ms / 100) `mod` 10)
}.

Definition start (responses : list (string + PicaResponse)) : World :=
  {| script := responses; sent := []; seen := ∅; counter := 0; time := 0 |}.

Definition ok (body : JsVal) : string + PicaResponse :=
  inr {| data := body; resp_headers := ∅; resp_status := 200 |}.

Definition options (fullSync : bool) : EngineOptions :=
  {| baseDir := "."; secretKey := "sk"; picaBaseUrl := None;
     full := fullSync; verbose := false |}.

(** The mapping of the README, without its detail fetch. *)
Definition gmail : SyncMapping :=
  {| name := "gmail-emails"; platform := "gmail";
     connectionKey := "live::gmail::default::abc123";
     actionId := "list-messages";
     request :=
       {| method := Some "GET"; path := Some "/users/me/messages";
          queryParams := Some {[ "maxResults" := JNum 100 ]};
          body := None; headers := None |};
     pagination :=
       {| pg_type := Cursor; requestParam := Some "pageToken";
          responseField := Some "nextPageToken";
          itemsField := Some "messages"; pageSize := None |};
     detail := None;
     record :=
       {| record_type := "email";
          record_mapping := {[ "snippet" := "snippet" ]};
          tags := Some ["gmail"]; naturalKeys := None |};
     externalRef :=
       {| system := "gmail"; idField := "id"; urlTemplate := None |};
     incremental := None |}.

Definition message (id : Z) : JsVal :=
  JObj {[ "id" := JNum id; "snippet" := JStr "hello" ]}.

Definition twoPages : list (string + PicaResponse) :=
  [ ok (JObj {[ "messages" := JArr [message 1; message 2];
                "nextPageToken" := JStr "abc" ]});
    ok (JObj {[ "messages" := JArr [message 3] ]}) ].

End Fake.

(** ** Scenarios on the scripted world *)

Definition offsetConfig : PaginationConfig :=
  {| pg_type := Offset; requestParam := Some "offset"; responseField := None;
     itemsField := Some "data"; pageSize := Some 100 |}.

Module Scenario.

(** A first run that stopped after its first page: a cursor is saved,
    no run has completed. *)
Definition interrupted : SyncState :=
  {| lastSyncAt := None; lastCursor := Some "abc"; syncToken := None;
     totalSynced := 0; lastRunRecords := 2; status := Error;
     lastError := Some "Pica API error 500: boom" |}.

(** A later run that stopped after a page. *)
Definition interruptedLater : SyncState :=
  {| lastSyncAt := Some "2026-02-01T10:00:00.000Z";
     lastCursor := Some "abc"; syncToken := Some "tok0";
     totalSynced := 7; lastRunRecords := 2; status := Error;
     lastError := Some "Pica API error 500: boom" |}.

(** The first page answers, the second request fails. *)
Definition failsOnSecondPage : list (string + PicaResponse) :=
  [ hd (inl EmptyString) Fake.twoPages; inl "Pica API error 500: boom" ].

(** A list endpoint read with [POST] and offsets, with no body
    template. *)
Definition postWithoutBody : SyncMapping :=
  {| name := "contacts"; platform := "attio";
     connectionKey := "live::attio::default::abc123";
     actionId := "list-contacts";
     request :=
       {| method := Some "POST"; path := Some "/objects/people/query";
          queryParams := None; body := None; headers := None |};
     pagination := offsetConfig;
     detail := None;
     record :=
       {| record_type := "contact";
          record_mapping := {[ "first" := "first"; "last" := "last" ]};
          tags := None; naturalKeys := Some ["{first}-{last}"] |};
     externalRef :=
       {| system := "attio"; idField := "id"; urlTemplate := None |};
     incremental := None |}.

(** A calendar read with sync tokens; [field] is the [tokenField] of the
    incremental block. *)
Definition calendar (field : option string) : SyncMapping :=
  {| name := "calendar"; platform := "google-calendar";
     connectionKey := "live::gcal::default::abc123";
     actionId := "list-events";
     request :=
       {| method := Some "GET"; path := Some "/calendars/primary/events";
          queryParams := None; body := None; headers := None |};
     pagination :=
       {| pg_type := SyncToken; requestParam := Some "pageToken";
          responseField := Some "nextPageToken";
          itemsField := Some "items"; pageSize := None |};
     detail := None;
     record :=
       {| record_type := "event";
          record_mapping := {[ "summary" := "summary" ]};
          tags := None; naturalKeys := None |};
     externalRef :=
       {| system := "gcal"; idField := "id"; urlTemplate := None |};
     incremental :=
       Some {| inc_type := IncSyncToken; param := Some "syncToken";
               template := None; tokenField := field |} |}.

Definition noEvents : list (string + PicaResponse) :=
  [ Fake.ok (JObj {[ "items" := JArr [] ]}) ].

(** The same endpoint with a body template. *)
Definition postWithBody : SyncMapping :=
  {| name := "contacts"; platform := "attio";
     connectionKey := "live::attio::default::abc123";
     actionId := "list-contacts";
     request :=
       {| method := Some "POST"; path := Some "/objects/people/query";
          queryParams := None; body := Some {[ "limit" := JNum 100 ]};
          headers := None |};
     pagination := offsetConfig;
     detail := None;
     record := record postWithoutBody;
     externalRef := externalRef postWithoutBody;
     incremental := None |}.

Definition onePerson : list (string + PicaResponse) :=
  [ Fake.ok (JObj {[ "data" := JArr
      [ JObj {[ "id" := JNum 1; "first" := JStr "John";
                "last" := JNull ]} ] ]}) ].

(** What is left of the [try] block of the run that fails on its second
    page. *)
Definition failedRun : Run Fake.World :=
  (pullTry Fake.gmail (Fake.options true) 5 true 0
     (startRun (Fake.options true) None (Fake.start failsOnSecondPage))).2.

End Scenario.

(** ** Predicates of the properties *)

(** A source path is unresolved on an item when [resolve] gives
    [undefined] or [null]: the two results that [extractId],
    [buildExternalUrl] and [applyMapping] all treat as "no value". *)
Definition unresolved (item : JsVal) (path : string) : Prop :=
  resolve item path = JUndefined \/ resolve item path = JNull.

(** The items that a response yields under a pagination configuration:
    the array found at [itemsField] when the configuration names a field,
    and the response itself, when it is an array, otherwise. *)
Definition yields (response : JsVal) (config : PaginationConfig)
    (raw : list JsVal) : Prop :=
  match itemsField config with
  | Some (String c field) => resolve response (String c field) = JArr raw
  | _ => response = JArr raw
  end.

(** [keeps P m]: from a run where [P] holds, [m] leaves a run where [P]
    holds, whether it returns, throws or runs out of fuel. *)
Definition keeps {W A} (P : Run W -> Prop) (m : M W A) : Prop :=
  forall r, P r -> P (m r).2.

(** [never_throws m]: no exception leaves [m]. *)
Definition never_throws {W A} (m : M W A) : Prop :=
  forall r e, (m r).1 <> Thrown e.

(** An invariant of the counters, the position and the state that no
    step of a page breaks once it holds for every step. *)
Record step_invariant {W} (P : Run W -> Prop) : Prop := {
  inv_world : forall w r, P r -> P (set_world w r);
  inv_error : forall r, P r -> P (incrErrorCount r);
  inv_new : forall r, P r -> P (incrNewCount r);
  inv_updated : forall r, P r -> P (incrUpdatedCount r);
  inv_advance : forall c n r, P r -> P (advance c n r);
  inv_checkpoint : forall r,
    P r -> P (saveState (set_state (set_lastCursor (cursor r) (state r)) r))
}.

Definition skipped_zero {W} (r : Run W) : Prop := skippedCount r = 0.

(** The state file holds the state object: nothing changes the object
    between two saves. *)
Definition checkpointed {W} (r : Run W) : Prop :=
  stateFile r = Some (state r).

(** [state.syncToken] is [token]. *)
Definition syncToken_is {W} (token : option string) (r : Run W) : Prop :=
  syncToken (state r) = token.

(** The state after the [catch] block. *)
Definition failedState {W} (errorMsg : string) (r : Run W) : SyncState :=
  {| lastSyncAt := lastSyncAt (state r);
     lastCursor := lastCursor (state r);
     syncToken := syncToken (state r);
     totalSynced := totalSynced (state r);
     lastRunRecords := newCount r;
     status := Error;
     lastError := Some errorMsg |}.

(** Two runs agree when they differ at most in the state object and the
    state file. *)
Definition agree {W} (r1 r2 : Run W) : Prop :=
  newCount r1 = newCount r2 /\ updatedCount r1 = updatedCount r2
  /\ skippedCount r1 = skippedCount r2 /\ errorCount r1 = errorCount r2
  /\ offset r1 = offset r2 /\ cursor r1 = cursor r2
  /\ world r1 = world r2.

(** Two computations stay in step on runs that agree: same outcome, and
    runs that agree again. *)
Definition in_step {W A} (m1 m2 : M W A) : Prop :=
  forall r1 r2, agree r1 r2 ->
    (m1 r1).1 = (m2 r2).1 /\ agree (m1 r1).2 (m2 r2).2.

(** *** The claims that the code does not meet, as they are stated *)

(** The claim about [applyMapping] for every table: no target field is
    left out, and its value is [null] exactly when the source path is
    unresolved. *)
Definition applyMapping_never_omits : Prop :=
  forall (item : JsVal) (table : gmap string string)
         (target sourcePath : string),
    table !! target = Some sourcePath ->
    exists value,
      applyMapping item table !! target = Some value
      /\ (value = JNull <-> unresolved item sourcePath).

(** The claim without the guard on [tokenField]. *)
Definition syncToken_always_captured : Prop :=
  forall (mapping : SyncMapping) (options : EngineOptions) (fuel : nat)
         (file : option SyncState) (w : Fake.World) (result : SyncResult)
         (r : Run Fake.World) (inc : IncrementalConfig),
    pull mapping options fuel file w = (Returned result, r) ->
    res_status result = Completed ->
    incremental mapping = Some inc ->
    inc_type inc = IncSyncToken ->
    syncToken (state r) = cursor r.


(** The claim without the guard on the first run. *)
Definition resumes_whenever_cursor_saved : Prop :=
  forall (options : EngineOptions) (file : option SyncState) (w : Fake.World)
         (saved : string),
    full options = false ->
    lastCursor (loadState file) = Some saved ->
    cursor (startRun options file w) = Some saved.


(** ** Definitions of the further properties *)

(** [s] holds no character [c]. *)
Fixpoint lacks (c : ascii) (s : string) : Prop :=
  match s with
  | EmptyString => True
  | String a rest => a <> c /\ lacks c rest
  end.

(** Every character of [s] satisfies [p]. *)
Fixpoint every (p : ascii -> bool) (s : string) : Prop :=
  match s with
  | EmptyString => True
  | String a rest => p a = true /\ every p rest
  end.

(** [v] is an object or an array: [v && typeof v === "object"]. *)
Definition isObjectLike (v : JsVal) : bool :=
  match v with
  | JArr _ | JObj _ => true
  | _ => false
  end.

(** The items accounted for: stored as new, stored as updated, or
    failed. *)
Definition tally {W} (r : Run W) : Z :=
  newCount r + updatedCount r + errorCount r.

(** The counters are not negative and account for every item of the pages
    read so far. *)
Definition accounted {W} (r : Run W) : Prop :=
  tally r = offset r
  /\ 0 <= newCount r /\ 0 <= updatedCount r /\ 0 <= errorCount r.

(** The state object is the one the run started with, but for its
    [lastCursor]. *)
Definition state_upto_cursor {W} (st0 : SyncState) (r : Run W) : Prop :=
  exists c, state r = set_lastCursor c st0.

(** The state that [pull] saves before its first request. *)
Definition runningState (file : option SyncState) : SyncState :=
  {| lastSyncAt := lastSyncAt (loadState file);
     lastCursor := lastCursor (loadState file);
     syncToken := syncToken (loadState file);
     totalSynced := totalSynced (loadState file);
     lastRunRecords := lastRunRecords (loadState file);
     status := Running;
     lastError := None |}.

(** ** output/stdout.ts

    [StdoutOutput]: the map [seen] of the instance, the counter of the
    module, and the lines written to the standard output, each the object
    that [JSON.stringify] is given.  The engine always passes [keys]. *)

Module Stdout.

Record Line : Type := {
  line_id : string;
  line_type : string;
  line_data : gmap string JsVal;
  line_tags : option (list string);
  line_keys : list string
}.

Record Store : Type := {
  seen : gmap string string;
  counter : nat;
  printed : list Line
}.

Definition empty : Store := {| seen := ∅; counter := 0; printed := [] |}.

Definition upsert (record : UpsertRecord) (s : Store)
  : (string * Action) * Store :=
  let id := "record-" ++ pretty (S (counter s)) in
  let action :=
    if existsb (fun key => bool_decide (is_Some (seen s !! key)))
         (up_keys record)
    then Updated else Inserted in
  let seen' :=
    foldl (fun m key => <[key := id]> m) (seen s) (up_keys record) in
  let line :=
    {| line_id := id; line_type := up_type record;
       line_data := up_data record; line_tags := up_tags record;
       line_keys := up_keys record |} in
  ((id, action),
   {| seen := seen'; counter := S (counter s);
      printed := printed s ++ [line] |}).

Definition findByRef (sys externalId : string) (s : Store) : option string :=
  seen s !! (sys ++ ":" ++ externalId).

Definition addRef (recordId : string) (ref : RefRecord) (s : Store) : Store :=
  {| seen := <[ref_system ref ++ ":" ++ ref_externalId ref := recordId]>
               (seen s);
     counter := counter s; printed := printed s |}.

(** The world of a run that writes to the standard output: the world [T]
    of the transport and of the clock, and the store. *)
Record World (T : Type) : Type := {
  transport : T;
  store : Store
}.

Arguments transport {T}.
Arguments store {T}.

Definition lift {T A} (e : effect T A) : effect (World T) A :=
  fun w =>
    match e (transport w) with
    | (res, t) => (res, {| transport := t; store := store w |})
    end.

#[global] Instance client {T} `{!PicaClient T} : PicaClient (World T) := {
  picaRequest opts := lift (picaRequest opts);
  picaRequestUrl fullUrl secret connection action :=
    lift (picaRequestUrl fullUrl secret connection action)
}.

#[global] Instance output {T} : SyncOutput (World T) := {
  upsert record w :=
    match upsert record (store w) with
    | (res, s) => (inr res, {| transport := transport w; store := s |})
    end;
  findByRef sys externalId w := (inr (findByRef sys externalId (store w)), w);
  addRef recordId ref w :=
    (inr tt, {| transport := transport w;
                store := addRef recordId ref (store w) |})
}.

#[global] Instance clock {T} `{!Clock T} : Clock (World T) := {
  now w := now (transport w);
  toISOString := toISOString (W:=T);
  toFixed1 := toFixed1 (W:=T)
}.

End Stdout.

(** ** state.ts: the files

    The directory [.pipesync] of a base directory: its configuration file
    and the files of its two subdirectories, by file name, on a file system
    that tells file names apart byte by byte.  A file holds the object that
    was written to it ([JSON.parse] of [JSON.stringify]).  The path of a
    file is [join(dir, `${name}.json`)]: it is the entry [name ++ ".json"]
    of [dir] for a name that [plainName] accepts, and the functions are
    modelled for such names. *)

Module Files.

(** A name that [path.join] leaves as it is and that the file system
    takes as one entry of a directory: it holds no separator ([/], and the
    backslash that is one on Windows) and no NUL, and with [.json] it has
    at most 255 bytes.  With a separator in the name the path leads to
    another directory or to a file of another name, or the directory is
    missing and the write throws. *)
Definition plainChar (c : ascii) : bool :=
  negb (Ascii.eqb c "/") && negb (Ascii.eqb c (ascii_of_nat 92))
  && negb (Ascii.eqb c (ascii_of_nat 0)).

Fixpoint plainChars (s : string) : bool :=
  match s with
  | EmptyString => true
  | String c rest => plainChar c && plainChars rest
  end.

Definition plainName (name : string) : bool :=
  plainChars name && (String.length name + 5 <=? 255)%nat.

Record SyncConfig : Type := {
  picaSecretKey : option string;
  picaBaseUrl : string;
  memConfigured : bool
}.

Record Dir : Type := {
  configFile : option SyncConfig;
  mappingFiles : gmap string SyncMapping;
  stateFiles : gmap string SyncState
}.

(** [`${name}.json`] *)
Definition fileName (name : string) : string := name ++ ".json".

Definition loadConfig (d : Dir) : SyncConfig :=
  match configFile d with
  | Some c => c
  | None => {| picaSecretKey := None;
               picaBaseUrl := "https://api.picaos.com";
               memConfigured := false |}
  end.

Definition saveConfig (config : SyncConfig) (d : Dir) : Dir :=
  {| configFile := Some config; mappingFiles := mappingFiles d;
     stateFiles := stateFiles d |}.

Definition isInitialized (d : Dir) : bool :=
  match configFile d with Some _ => true | None => false end.

Definition saveMapping (mapping : SyncMapping) (d : Dir) : Dir :=
  {| configFile := configFile d;
     mappingFiles := <[fileName (name mapping) := mapping]> (mappingFiles d);
     stateFiles := stateFiles d |}.

Definition loadMapping (d : Dir) (name : string) : option SyncMapping :=
  mappingFiles d !! fileName name.

(** [readdirSync(dir).filter(f => f.endsWith(".json"))
      .map(f => f.replace(".json", ""))] *)
Definition listMappings (d : Dir) : list string :=
  Str.replaceFirst ".json" EmptyString
    <$> filter (fun f => Str.endsWith ".json" f = true)
          (elements (dom (mappingFiles d))).

Definition removeMapping (d : Dir) (name : string) : bool * Dir :=
  match mappingFiles d !! fileName name with
  | None => (false, d)
  | Some _ =>
      (true,
       {| configFile := configFile d;
          mappingFiles := delete (fileName name) (mappingFiles d);
          stateFiles := delete (fileName name) (stateFiles d) |})
  end.

Definition loadState (d : Dir) (name : string) : SyncState :=
  loadState (stateFiles d !! fileName name).

Definition saveState (name : string) (st : SyncState) (d : Dir) : Dir :=
  {| configFile := configFile d; mappingFiles := mappingFiles d;
     stateFiles := <[fileName name := st]> (stateFiles d) |}.

End Files.

(** ** cli.ts: [parseDuration] *)

(** The second group of [/^(\d+)(s|m|h|d)$/], in milliseconds. *)
Definition unitMillis (unit : ascii) : option Z :=
  if Ascii.eqb unit "s" then Some 1000
  else if Ascii.eqb unit "m" then Some (60 * 1000)
  else if Ascii.eqb unit "h" then Some (60 * 60 * 1000)
  else if Ascii.eqb unit "d" then Some (24 * 60 * 60 * 1000)
  else None.

(** A string without its last character, and that character. *)
Fixpoint splitLast (s : string) : option (string * ascii) :=
  match s with
  | EmptyString => None
  | String c EmptyString => Some (EmptyString, c)
  | String c rest =>
      match splitLast rest with
      | Some (front, last) => Some (String c front, last)
      | None => None
      end
  end.

(** The numbers that [parseDuration] computes with: doubles that hold a
    natural number, and [Infinity]. *)
Module Number.

Inductive t : Type :=
| Finite (n : Z)
| Infinity.

(** The double nearest to a natural number [n]: [n] itself when it has at
    most 53 significant bits, else [n] rounded to 53 significant bits,
    a tie to the even one, and [Infinity] from [2^1024] on. *)
Definition ofZ (n : Z) : t :=
  let e := Z.log2 n - 52 in
  if e <=? 0 then Finite n
  else
    let q := Z.shiftr n e in
    let r := Z.land n (Z.ones e) in
    let half := Z.shiftl 1 (e - 1) in
    let q' :=
      if (r <? half) || ((r =? half) && Z.even q) then q else q + 1 in
    let m := Z.shiftl q' e in
    if m <? 2 ^ 1024 then Finite m else Infinity.

(** [a * k] for a natural number [k]: the product, rounded. *)
Definition mul (a : t) (k : Z) : t :=
  match a with
  | Finite n => ofZ (n * k)
  | Infinity => Infinity
  end.

(** [!a] *)
Definition falsy (a : t) : bool :=
  match a with
  | Finite n => n =? 0
  | Infinity => false
  end.

End Number.

(** [parseDuration]: the string is one or more digits and one unit; the
    digits are read by [parseInt(_, 10)], which gives a double, and the
    products of the [switch] are products of doubles, from left to
    right. *)
Definition parseDuration (str : string) : option Number.t :=
  match splitLast str with
  | Some (String c number, unit) =>
      match Str.digits 0 (String c number) with
      | Some digits =>
          let value := Number.ofZ (Z.of_N digits) in
          if Ascii.eqb unit "s" then Some (Number.mul value 1000)
          else if Ascii.eqb unit "m" then
            Some (Number.mul (Number.mul value 60) 1000)
          else if Ascii.eqb unit "h" then
            Some (Number.mul (Number.mul (Number.mul value 60) 60) 1000)
          else if Ascii.eqb unit "d" then
            Some (Number.mul
                    (Number.mul (Number.mul (Number.mul value 24) 60) 60)
                    1000)
          else None
      | None => None
      end
  | _ => None
  end.

(** The interval that [watch] accepts: [if (!intervalMs)] rejects [null]
    and 0. *)
Definition watchInterval (str : string) : option Number.t :=
  match parseDuration str with
  | Some intervalMs =>
      if Number.falsy intervalMs then None else Some intervalMs
  | None => None
  end.

(** ** A transport that always has more

    Every request is answered with a page of one item and no token. *)

Module Endless.

Record World : Type := { asked : nat }.

Definition page : PicaResponse :=
  {| data := JObj {[ "items" := JArr [JObj {[ "id" := JNum 1 ]}] ]};
     resp_headers := ∅; resp_status := 200 |}.

#[global] Instance client : PicaClient World := {
  picaRequest opts w := (inr page, {| asked := S (asked w) |});
  picaRequestUrl fullUrl secret connection action w :=
    (inr page, {| asked := S (asked w) |})
}.

#[global] Instance output : SyncOutput World := {
  upsert record w := (inr ("record-1", Updated), w);
  findByRef sys externalId w := (inr None, w);
  addRef recordId ref w := (inr tt, w)
}.

#[global] Instance clock : Clock World := {
  now w := Z.of_nat (asked w);
  toISOString t := pretty t;
  toFixed1 ms := pretty ms
}.

End Endless.

(** A mapping of one request, without pagination. *)
Definition singlePage : SyncMapping :=
  {| name := "single"; platform := "gmail";
     connectionKey := connectionKey Fake.gmail;
     actionId := actionId Fake.gmail;
     request := request Fake.gmail;
     pagination :=
       {| pg_type := NoPagination; requestParam := None;
          responseField := None; itemsField := Some "messages";
          pageSize := None |};
     detail := None; record := record Fake.gmail;
     externalRef := externalRef Fake.gmail; incremental := None |}.

(** * Properties *)

(** ** The field mapper *)

Lemma coalesce_null_iff (v : JsVal) :
  Js.coalesce v JNull = JNull <-> v = JUndefined \/ v = JNull.
Proof.
  destruct v; cbn; split; intros H; auto;
    try discriminate; destruct H; discriminate.
Qed.

(** The loop of [applyMapping] maps every entry of the table but the one
    of [__proto__]. *)
Lemma applyMapping_fmap (item : JsVal) (table : gmap string string) :
  applyMapping item table
  = (fun sourcePath => Js.coalesce (resolve item sourcePath) JNull)
      <$> delete "__proto__" table.
Proof.
  unfold applyMapping.
  apply (map_fold_weak_ind
           (fun result m => result = _ <$> delete "__proto__" m)).
  - by rewrite delete_empty, fmap_empty.
  - intros target sourcePath m result Hfresh ->. unfold Obj.assign.
    destruct (String.eqb_spec target "__proto__") as [->|Hne].
    + rewrite delete_insert_eq. reflexivity.
    + rewrite delete_insert_ne by congruence. by rewrite fmap_insert.
Qed.

(** The result has the target fields of the table but [__proto__], and no
    other. *)
Lemma applyMapping_dom (item : JsVal) (table : gmap string string) :
  dom (applyMapping item table) = dom table ∖ {[ "__proto__" ]}.
Proof. rewrite applyMapping_fmap, dom_fmap_L. apply dom_delete_L. Qed.

(** A source field that holds [null] reads as unresolved. *)
Example null_field_unresolved :
  unresolved (JObj {[ "a" := JNull ]}) "a"
  /\ applyMapping (JObj {[ "a" := JNull ]}) {[ "t" := "a" ]} !! "t"
     = Some JNull.
Proof. split; [right|]; reflexivity. Qed.

(** A target field other than [__proto__] is in the result, with the value
    at its source path, or [null] when the path is unresolved; the value
    at the path of an own property of the item is the value of the
    property. *)
Lemma applyMapping_target (item : JsVal) (table : gmap string string)
    (target sourcePath : string) :
  target <> "__proto__" ->
  table !! target = Some sourcePath ->
  exists value,
    applyMapping item table !! target = Some value
    /\ value = Js.coalesce (resolve item sourcePath) JNull
    /\ (value = JNull <-> unresolved item sourcePath).
Proof.
  intros Hne Hin.
  rewrite applyMapping_fmap, lookup_fmap, lookup_delete_ne, Hin by congruence.
  cbn. eexists; split; [reflexivity|]. split; [reflexivity|].
  apply coalesce_null_iff.
Qed.

Lemma applyMapping_target_witness :
  exists value,
    applyMapping (JObj {[ "payload" := JObj {[ "Subject" := JStr "Hello" ]} ]})
      {[ "subject" := "payload.Subject"; "snippet" := "snippet" ]} !! "subject"
    = Some value
    /\ value = JStr "Hello"
    /\ (value = JNull
        <-> unresolved
              (JObj {[ "payload" := JObj {[ "Subject" := JStr "Hello" ]} ]})
              "payload.Subject").
Proof.
  exact (applyMapping_target
           (JObj {[ "payload" := JObj {[ "Subject" := JStr "Hello" ]} ]})
           {[ "subject" := "payload.Subject"; "snippet" := "snippet" ]}
           "subject" "payload.Subject" ltac:(discriminate) eq_refl).
Defined.

(** The target field [__proto__] is never in the result. *)
Lemma applyMapping_proto (item : JsVal) (table : gmap string string) :
  applyMapping item table !! "__proto__" = None.
Proof. rewrite applyMapping_fmap, lookup_fmap, lookup_delete_eq. reflexivity. Qed.

(** C6 fails on the code.  The claim: for every item and every mapping
    table, the result of [applyMapping] has every target key of the table,
    and the value of a target is [null] if and only if its source path does
    not resolve on the item.  The code: for the table
    [{"__proto__": "id", "name": "profile.name"}], which [JSON.parse] gives
    as it is written, the assignment [result["__proto__"] = 7] reaches the
    setter of [Object.prototype] and adds no property, so the result is
    [{name: "Ann"}], without the target [__proto__], although its source
    path resolves to 7. *)
Theorem applyMapping_omits_proto :
  let item :=
    JObj {[ "id" := JNum 7; "profile" := JObj {[ "name" := JStr "Ann" ]} ]} in
  let table : gmap string string :=
    {[ "__proto__" := "id"; "name" := "profile.name" ]} in
  table !! "__proto__" = Some "id"
  /\ resolve item "id" = JNum 7
  /\ applyMapping item table = {[ "name" := JStr "Ann" ]}
  /\ applyMapping item table !! "__proto__" = None
  /\ ~ applyMapping_never_omits.
Proof.
  cbn zeta. split; [reflexivity|]. split; [reflexivity|].
  split; [by vm_compute|]. split; [by vm_compute|].
  intros Hclaim.
  destruct (Hclaim (JObj {[ "id" := JNum 7 ]}) {[ "__proto__" := "id" ]}
              "__proto__" "id" (lookup_singleton_eq _ _))
    as (value & Hvalue & _).
  rewrite applyMapping_proto in Hvalue. discriminate.
Qed.

(** ** The pagination driver *)

Lemma pageSizeOr100_100 (config : PaginationConfig) :
  pageSize config = Some 100 -> pageSizeOr100 config = 100.
Proof. unfold pageSizeOr100. intros ->. reflexivity. Qed.

(** C7. With pagination type [offset] and [pageSize = 100], a response
    that yields exactly 100 items gives [done = false] and a non-null
    continuation marker, and a response that yields 99 items or fewer gives
    [done = true], whatever the items are; the items of the page are the
    items that the response yields. *)
Theorem extractPage_offset_100 (response : JsVal) (config : PaginationConfig)
    (headers : option (gmap string string)) (raw : list JsVal) :
  pg_type config = Offset ->
  pageSize config = Some 100 ->
  yields response config raw ->
  let page := extractPage response config headers in
  items page = raw
  /\ (length raw = 100%nat ->
      done page = false /\ nextCursor page = Some "continue")
  /\ ((length raw <= 99)%nat -> done page = true /\ nextCursor page = None).
Proof.
  intros Hty Hsize Hraw.
  assert (isObjectLike response = true
          /\ (if Js.truthyOpt (itemsField config)
              then match resolve response
                           (default EmptyString (itemsField config)) with
                   | JArr found => found
                   | _ => []
                   end
              else match response with JArr xs => xs | _ => [] end) = raw)
    as [Hobj Hitems].
  { unfold yields in Hraw.
    destruct (itemsField config) as [[|c field]|]; cbn.
    - rewrite Hraw. auto.
    - rewrite Hraw. split; [|reflexivity].
      unfold resolve in Hraw.
      destruct response; cbn in Hraw; rewrite ?orb_true_r in Hraw;
        try discriminate; reflexivity.
    - rewrite Hraw. auto. }
  unfold extractPage.
  replace (negb (Js.truthy response)
           || negb (String.eqb (Js.typeof response) "object")) with false
    by (destruct response; try discriminate; reflexivity).
  rewrite Hty. cbn zeta. rewrite Hitems, (pageSizeOr100_100 _ Hsize).
  destruct (Z.ltb_spec (Z.of_nat (length raw)) 100) as [Hlt|Hge]; cbn.
  - split; [reflexivity|]. split; [lia|auto].
  - split; [reflexivity|]. split; [auto|lia].
Qed.

Lemma extractPage_offset_100_witness :
  let page :=
    extractPage (JObj {[ "data" := JArr (replicate 100 (JObj ∅)) ]})
      offsetConfig None in
  items page = replicate 100 (JObj ∅)
  /\ (length (replicate 100 (JObj ∅)) = 100%nat ->
      done page = false /\ nextCursor page = Some "continue")
  /\ ((length (replicate 100 (JObj ∅)) <= 99)%nat ->
      done page = true /\ nextCursor page = None).
Proof.
  apply (extractPage_offset_100 _ offsetConfig None); reflexivity.
Defined.

(** The two sides of the bound are met: 100 items and 99 items. *)
Example extractPage_offset_full_page :
  extractPage (JObj {[ "data" := JArr (replicate 100 (JObj ∅)) ]})
    offsetConfig None
  = {| items := replicate 100 (JObj ∅); nextCursor := Some "continue";
       done := false |}.
Proof. vm_compute. reflexivity. Qed.

Example extractPage_offset_short_page :
  extractPage (JObj {[ "data" := JArr (replicate 99 (JObj ∅)) ]})
    offsetConfig None
  = {| items := replicate 99 (JObj ∅); nextCursor := None; done := true |}.
Proof. vm_compute. reflexivity. Qed.

(** C9. For every pagination configuration and every header map,
    [extractPage] of a response that is [null], [undefined] or not an
    object returns no items, a [null] cursor and [done = true]; the
    function is total, so it does not throw. *)
Theorem extractPage_not_object (response : JsVal) (config : PaginationConfig)
    (headers : option (gmap string string)) :
  response = JNull \/ response = JUndefined
  \/ Js.typeof response <> "object" ->
  extractPage response config headers
  = {| items := []; nextCursor := None; done := true |}.
Proof.
  intros H. unfold extractPage.
  destruct response; try reflexivity;
    try (destruct (negb (Js.truthy _)); reflexivity);
    destruct H as [H|[H|H]]; try discriminate; contradiction H; reflexivity.
Qed.

Lemma extractPage_not_object_witness :
  extractPage (JStr "Bad Gateway") offsetConfig (Some {[ "link" := "<u>" ]})
  = {| items := []; nextCursor := None; done := true |}.
Proof.
  apply (extractPage_not_object (JStr "Bad Gateway")).
  right; right. discriminate.
Defined.

(** C10. [applyCursor] changes at most the key that [config.requestParam]
    names: every other key of the result has the value it has in the
    input, and when [requestParam] is unset, or the type is [link-header]
    or [none], the result is the input. *)
Theorem applyCursor_frame (params : gmap string JsVal)
    (config : PaginationConfig) (cur : option string) (currentOffset : Z) :
  (forall k : string,
      requestParam config <> Some k ->
      applyCursor params config cur currentOffset !! k = params !! k)
  /\ (requestParam config = None \/ pg_type config = LinkHeader
      \/ pg_type config = NoPagination ->
      applyCursor params config cur currentOffset = params).
Proof.
  unfold applyCursor. split.
  - intros k Hk.
    destruct (noCursor cur && _); [reflexivity|].
    destruct (requestParam config) as [rp|] eqn:Hrp; cbn.
    + assert (rp <> k) by congruence.
      destruct (pg_type config); cbn;
        repeat match goal with
               | |- context [if ?b then _ else _] => destruct b
               end;
        rewrite ?lookup_insert_ne by assumption; reflexivity.
    + destruct (pg_type config); cbn; rewrite ?andb_false_r; reflexivity.
  - intros H. destruct (noCursor cur && _); [reflexivity|].
    destruct H as [H|[H|H]]; rewrite H; cbn; [|reflexivity..].
    destruct (pg_type config); cbn; rewrite ?andb_false_r; reflexivity.
Qed.

(** ** The engine

    *** Run invariants

    [keeps P m]: from a run where [P] holds, [m] leaves a run where [P]
    holds, whether it returns, throws or runs out of fuel. *)

Section Keeps.
Context {W : Type}.
Implicit Types P : Run W -> Prop.

Lemma keeps_ret {A} P (a : A) : keeps P (ret a).
Proof. intros r Hr. exact Hr. Qed.

Lemma keeps_bind {A B} P (m : M W A) (k : A -> M W B) :
  keeps P m -> (forall a, keeps P (k a)) -> keeps P (bind m k).
Proof.
  intros Hm Hk r Hr. unfold bind. specialize (Hm r Hr).
  destruct (m r) as [[a|e|] r']; cbn in *; auto. apply Hk, Hm.
Qed.

Lemma keeps_tryCatch {A} P (m : M W A) (handler : string -> M W A) :
  keeps P m -> (forall e, keeps P (handler e)) ->
  keeps P (tryCatch m handler).
Proof.
  intros Hm Hh r Hr. unfold tryCatch. specialize (Hm r Hr).
  destruct (m r) as [[a|e|] r']; cbn in *; auto. apply Hh, Hm.
Qed.

Lemma keeps_gets {A} P (f : Run W -> A) : keeps P (gets f).
Proof. intros r Hr. exact Hr. Qed.

Lemma keeps_outOfFuel {A} P : keeps P (@outOfFuel W A).
Proof. intros r Hr. exact Hr. Qed.

Lemma keeps_modify P (f : Run W -> Run W) :
  (forall r, P r -> P (f r)) -> keeps P (modify f).
Proof. intros Hf r Hr. apply Hf, Hr. Qed.

Lemma keeps_await {A} P (e : effect W A) :
  (forall w r, P r -> P (set_world w r)) -> keeps P (await e).
Proof.
  intros Hw r Hr. unfold await.
  destruct (e (world r)) as [[msg|a] w]; cbn; apply Hw, Hr.
Qed.

Lemma keeps_forEach {A} P (body : A -> M W unit) (xs : list A) :
  (forall x, keeps P (body x)) -> keeps P (forEach body xs).
Proof.
  intros Hbody. induction xs as [|x rest IH]; cbn.
  - apply keeps_ret.
  - apply keeps_bind; auto.
Qed.

Lemma keeps_if {A} P (b : bool) (m1 m2 : M W A) :
  keeps P m1 -> keeps P m2 -> keeps P (if b then m1 else m2).
Proof. destruct b; auto. Qed.

Lemma never_throws_ret {A} (a : A) : never_throws (W:=W) (ret a).
Proof. intros r e. discriminate. Qed.

Lemma never_throws_modify (f : Run W -> Run W) : never_throws (modify f).
Proof. intros r e. discriminate. Qed.

Lemma never_throws_bind {A B} (m : M W A) (k : A -> M W B) :
  never_throws m -> (forall a, never_throws (k a)) ->
  never_throws (bind m k).
Proof.
  intros Hm Hk r e. unfold bind. specialize (Hm r).
  destruct (m r) as [[a|e'|] r']; cbn in *.
  - apply Hk.
  - contradiction (Hm e'). reflexivity.
  - discriminate.
Qed.

Lemma never_throws_tryCatch {A} (m : M W A) (handler : string -> M W A) :
  (forall e, never_throws (handler e)) -> never_throws (tryCatch m handler).
Proof.
  intros Hh r e. unfold tryCatch.
  destruct (m r) as [[a|e'|] r']; cbn; try discriminate. apply Hh.
Qed.

Lemma never_throws_forEach {A} (body : A -> M W unit) (xs : list A) :
  (forall x, never_throws (body x)) -> never_throws (forEach body xs).
Proof.
  intros Hbody. induction xs as [|x rest IH]; cbn.
  - apply never_throws_ret.
  - apply never_throws_bind; auto.
Qed.

End Keeps.

(** Unfolds the monad down to functions on runs. *)
Ltac unfold_run :=
  unfold mbind, M_bind, bind, gets, modify, mret, M_ret, ret.

Section EngineFacts.
Context {W : Type} `{!PicaClient W, !SyncOutput W, !Clock W}.

Variable mapping : SyncMapping.
Variable options : EngineOptions.

Implicit Types r : Run W.

Lemma keeps_fetchDetail P (item : JsVal) :
  step_invariant P -> keeps P (fetchDetail mapping options item).
Proof.
  intros HP. unfold fetchDetail.
  destruct (detail mapping) as [d|]; [|apply keeps_ret].
  apply keeps_tryCatch; [|intros ?; apply keeps_ret].
  destruct (extractId item (detail_idField d)); [|apply keeps_ret].
  apply keeps_if; [|apply keeps_ret].
  apply keeps_bind; [apply keeps_await, HP|].
  intros response. apply keeps_if; apply keeps_ret.
Qed.

Lemma keeps_processItem P (item : JsVal) :
  step_invariant P -> keeps P (processItem mapping options item).
Proof.
  intros HP. unfold processItem.
  apply keeps_tryCatch; [|intros ?; apply keeps_modify, HP].
  destruct (extractId item _); [|apply keeps_modify, HP].
  apply keeps_if; [|apply keeps_modify, HP].
  apply keeps_bind; [apply keeps_fetchDetail, HP|intros itemData].
  apply keeps_bind; [apply keeps_await, HP|intros upserted].
  apply keeps_bind; [apply keeps_await, HP|intros _].
  destruct (upserted.2); apply keeps_modify, HP.
Qed.

Lemma keeps_fetchPage P queryParams body cur :
  step_invariant P -> keeps P (fetchPage mapping options queryParams body cur).
Proof.
  intros HP. unfold fetchPage.
  destruct (pg_type (pagination mapping)); try apply keeps_await, HP.
  apply keeps_if; apply keeps_await, HP.
Qed.

Lemma keeps_pageStep P (firstRun : bool) :
  step_invariant P -> keeps P (pageStep mapping options firstRun).
Proof.
  intros HP. unfold pageStep.
  apply keeps_bind; [apply keeps_gets|intros st].
  apply keeps_bind; [apply keeps_gets|intros cur].
  apply keeps_bind; [apply keeps_gets|intros off].
  apply keeps_bind; [apply keeps_fetchPage, HP|intros response].
  apply keeps_bind;
    [apply keeps_forEach; intros item; apply keeps_processItem, HP|intros _].
  apply keeps_bind; [apply keeps_modify; intros r; apply HP|intros _].
  apply keeps_bind; [apply keeps_modify; intros r; apply HP|intros _].
  apply keeps_ret.
Qed.

Lemma keeps_pageLoop P (fuel : nat) (firstRun : bool) :
  step_invariant P -> keeps P (pageLoop mapping options fuel firstRun).
Proof.
  intros HP. induction fuel as [|fuel IH]; cbn [pageLoop].
  - apply keeps_outOfFuel.
  - apply keeps_bind; [apply keeps_pageStep, HP|intros finished].
    apply keeps_if; [apply keeps_ret|exact IH].
Qed.

(** *** What a page leaves *)

Lemma skipped_zero_invariant : step_invariant (W:=W) skipped_zero.
Proof. split; unfold skipped_zero; intros; cbn; assumption. Qed.

Lemma checkpointed_invariant : step_invariant (W:=W) checkpointed.
Proof.
  split; unfold checkpointed; intros; cbn in *; try assumption.
  reflexivity.
Qed.

Lemma syncToken_is_invariant token :
  step_invariant (W:=W) (syncToken_is token).
Proof. split; unfold syncToken_is; intros; cbn in *; assumption. Qed.

(** Item-level failures are caught: the loop over the items does not
    throw. *)
Lemma processItem_never_throws (item : JsVal) :
  never_throws (processItem mapping options item).
Proof.
  unfold processItem. apply never_throws_tryCatch.
  intros e. apply never_throws_modify.
Qed.

Lemma items_never_throw (xs : list JsVal) :
  never_throws (forEach (processItem mapping options) xs).
Proof. apply never_throws_forEach, processItem_never_throws. Qed.

Lemma forEach_processItem_returns (xs : list JsVal) r :
  exists r', forEach (processItem mapping options) xs r = (Returned tt, r').
Proof.
  revert r. induction xs as [|x rest IH]; intros r; cbn.
  - eexists; reflexivity.
  - unfold bind.
    pose proof (processItem_never_throws x r) as Hx.
    destruct (processItem mapping options x r) as [[[]|e|] r1] eqn:E; cbn in *.
    + apply IH.
    + contradiction (Hx e). reflexivity.
    + exfalso. revert E. unfold processItem, tryCatch.
      destruct (extractId x _) as [externalId|]; [|discriminate].
      destruct (Js.truthyStr externalId); [|discriminate].
      unfold mbind, M_bind, bind.
      assert (forall r0, (fetchDetail mapping options x r0).1 <> OutOfFuel)
        as Hdetail.
      { intros r0. unfold fetchDetail, tryCatch.
        destruct (detail mapping) as [d|]; [|discriminate].
        destruct (extractId x (detail_idField d)) as [detailId|];
          [|discriminate].
        destruct (Js.truthyStr detailId); [|discriminate].
        unfold mbind, M_bind, bind, await.
        destruct (picaRequest _ (world r0)) as [[msg|response] w]; cbn;
          [discriminate|].
        destruct (Js.truthy (data response) && _); discriminate. }
      specialize (Hdetail r).
      destruct (fetchDetail mapping options x r) as [[itemData|e|] r2];
        cbn in Hdetail; [|discriminate|congruence].
      unfold await.
      destruct (upsert _ (world r2)) as [[msg|upserted] w2]; cbn;
        [discriminate|].
      destruct (addRef _ _ w2) as [[msg|[]] w3]; cbn; [discriminate|].
      destruct (upserted.2); discriminate.
Qed.

(** When the page fetch throws, the turn of the loop throws, and only
    the world has changed. *)
Lemma pageStep_fetch_throws (firstRun : bool) r msg r' :
  fetchPage mapping options
    (mergeIntoBody mapping
       (pageQueryParams (full options) firstRun mapping (state r)
          (cursor r) (offset r))).1
    (mergeIntoBody mapping
       (pageQueryParams (full options) firstRun mapping (state r)
          (cursor r) (offset r))).2
    (cursor r) r = (Thrown msg, r') ->
  pageStep mapping options firstRun r = (Thrown msg, r')
  /\ r' = set_world (world r') r.
Proof.
  intros Hfetch. split.
  - unfold pageStep, mbind, M_bind, bind, gets. rewrite Hfetch. reflexivity.
  - revert Hfetch. unfold fetchPage, await.
    destruct (pg_type (pagination mapping));
      try destruct (Js.truthyOpt (cursor r));
      match goal with
      | |- context [picaRequest ?o ?w0] =>
          destruct (picaRequest o w0) as [[?|?] ?]
      | |- context [picaRequestUrl ?u ?s ?c ?a ?w0] =>
          destruct (picaRequestUrl u s c a w0) as [[?|?] ?]
      end; intros [= <- <-] || intros [=]; reflexivity.
Qed.

(** What a turn of the loop throws, the page fetch has thrown. *)
Lemma pageStep_thrown (firstRun : bool) r msg r' :
  pageStep mapping options firstRun r = (Thrown msg, r') ->
  r' = set_world (world r') r.
Proof.
  intros Hstep.
  destruct (fetchPage mapping options
      (mergeIntoBody mapping
         (pageQueryParams (full options) firstRun mapping (state r)
            (cursor r) (offset r))).1
      (mergeIntoBody mapping
         (pageQueryParams (full options) firstRun mapping (state r)
            (cursor r) (offset r))).2
      (cursor r) r) as [[response|e|] r1] eqn:Hfetch.
  - exfalso. revert Hstep.
    unfold pageStep; unfold_run.
    rewrite Hfetch.
    destruct (forEach_processItem_returns
                (items (extractPage (data response) (pagination mapping)
                          (Some (resp_headers response)))) r1)
      as [r2 Hitems].
    rewrite Hitems. discriminate.
  - destruct (pageStep_fetch_throws firstRun r e r1 Hfetch) as [Hthrow Hworld].
    rewrite Hthrow in Hstep. injection Hstep as _ <-. exact Hworld.
  - exfalso. revert Hstep.
    unfold pageStep, mbind, M_bind, bind, gets. rewrite Hfetch. discriminate.
Qed.

(** A turn of the loop that returns has read a page: it returns the
    page's [done], and the cursor and the checkpoint are the page's next
    cursor. *)
Lemma pageStep_returned (firstRun : bool) r finished r' :
  pageStep mapping options firstRun r = (Returned finished, r') ->
  exists response : PicaResponse,
    let page :=
      extractPage (data response) (pagination mapping)
        (Some (resp_headers response)) in
    finished = done page
    /\ cursor r' = nextCursor page
    /\ lastCursor (state r') = nextCursor page.
Proof.
  unfold pageStep; unfold_run.
  destruct (fetchPage _ _ _ _ _ r) as [[response|e|] r1]; try discriminate.
  destruct (forEach _ _ r1) as [[[]|e|] r2]; try discriminate.
  intros [= <- <-]. exists response. cbn. auto.
Qed.

Lemma pageLoop_returned (fuel : nat) (firstRun : bool) r r' :
  pageLoop mapping options fuel firstRun r = (Returned tt, r') ->
  exists response : PicaResponse,
    let page :=
      extractPage (data response) (pagination mapping)
        (Some (resp_headers response)) in
    done page = true
    /\ cursor r' = nextCursor page
    /\ lastCursor (state r') = nextCursor page.
Proof.
  revert r. induction fuel as [|fuel IH]; intros r; cbn [pageLoop].
  - discriminate.
  - unfold mbind, M_bind, bind.
    destruct (pageStep mapping options firstRun r) as [[finished|e|] r1] eqn:E;
      try discriminate.
    destruct finished.
    + intros [= <-].
      destruct (pageStep_returned _ _ _ _ E) as (response & Hd & Hc & Hl).
      exists response. cbn. auto.
    + apply IH.
Qed.

(** When the loop throws, it does so at the head of a turn: the counters,
    the position and the state are those that the pages before have left,
    and the state file holds that state. *)
Lemma pageLoop_thrown (fuel : nat) (firstRun : bool) r msg r' :
  checkpointed r ->
  pageLoop mapping options fuel firstRun r = (Thrown msg, r') ->
  exists head : Run W,
    checkpointed head
    /\ pageStep mapping options firstRun head = (Thrown msg, r')
    /\ r' = set_world (world r') head.
Proof.
  revert r. induction fuel as [|fuel IH]; intros r Hsaved; cbn [pageLoop].
  - discriminate.
  - unfold mbind, M_bind, bind.
    pose proof (keeps_pageStep checkpointed firstRun checkpointed_invariant
                  r Hsaved) as Hnext.
    destruct (pageStep mapping options firstRun r) as [[finished|e|] r1] eqn:E;
      try discriminate.
    + destruct finished; [discriminate|]. apply IH, Hnext.
    + intros [= <- <-]. exists r. split; [exact Hsaved|]. split; [exact E|].
      apply (pageStep_thrown _ _ _ _ E).
Qed.

(** *** The two ends of a run *)

(** [pull] by the outcome of its loop. *)
Lemma pull_unfold (fuel : nat) (file : option SyncState) (w : W) :
  pull mapping options fuel file w
  = match pageLoop mapping options fuel (isFirstRun (loadState file))
            (startRun options file w) with
    | (Returned _, r1) =>
        let r2 := captureSyncToken mapping r1 in
        let r3 := finalize r2 in
        (Returned
           {| res_name := name mapping;
              res_new := newCount r3;
              res_updated := updatedCount r3;
              res_skipped := skippedCount r3;
              res_errors := errorCount r3;
              res_duration := toFixed1 (now (world r2) - now w) ++ "s";
              res_status := Completed;
              res_error := None |}, r3)
    | (Thrown errorMsg, r1) =>
        let r2 := saveState (set_state (failedState errorMsg r1) r1) in
        (Returned
           {| res_name := name mapping;
              res_new := newCount r2;
              res_updated := updatedCount r2;
              res_skipped := skippedCount r2;
              res_errors := errorCount r2 + 1;
              res_duration := toFixed1 (now (world r1) - now w) ++ "s";
              res_status := Error;
              res_error := Some errorMsg |}, r2)
    | (OutOfFuel, r1) => (OutOfFuel, r1)
    end.
Proof.
  unfold pull, tryCatch, pullTry, pullCatch, mbind, M_bind, bind.
  destruct (pageLoop _ _ _ _ _) as [[[]|e|] r1]; reflexivity.
Qed.

(** The [try] block throws exactly when the loop over the pages does. *)
Lemma pullTry_thrown (fuel : nat) (firstRun : bool) (startTime : Z)
    r msg r' :
  pullTry mapping options fuel firstRun startTime r = (Thrown msg, r') ->
  pageLoop mapping options fuel firstRun r = (Thrown msg, r').
Proof.
  unfold pullTry; unfold_run.
  destruct (pageLoop _ _ _ _ r) as [[[]|e|] r1]; cbn; congruence.
Qed.

(** [pull] catches what its loop throws. *)
Lemma pull_never_throws (fuel : nat) (file : option SyncState) (w : W)
    (e : string) :
  (pull mapping options fuel file w).1 <> Thrown e.
Proof.
  rewrite pull_unfold.
  destruct (pageLoop _ _ _ _ _) as [[[]|msg|] r1]; discriminate.
Qed.

(** *** Termination *)

(** A turn of the loop returns or throws. *)
Lemma pageStep_has_fuel (firstRun : bool) (r : Run W) :
  (pageStep mapping options firstRun r).1 <> OutOfFuel.
Proof.
  unfold pageStep; unfold_run.
  destruct (fetchPage _ _ _ _ _ r) as [[response|e|] r1] eqn:Hfetch; cbn.
  - destruct (forEach_processItem_returns
                (items (extractPage (data response) (pagination mapping)
                          (Some (resp_headers response)))) r1)
      as [r2 Hitems].
    rewrite Hitems. discriminate.
  - discriminate.
  - exfalso. revert Hfetch. unfold fetchPage, await.
    destruct (pg_type (pagination mapping));
      try destruct (Js.truthyOpt (cursor r));
      match goal with
      | |- context [picaRequest ?o ?w0] =>
          destruct (picaRequest o w0) as [[?|?] ?]
      | |- context [picaRequestUrl ?u ?s ?c ?a ?w0] =>
          destruct (picaRequestUrl u s c a w0) as [[?|?] ?]
      end; discriminate.
Qed.

(** [pull] returns a result exactly when its loop ends within the
    fuel. *)
Lemma pull_returns_iff (fuel : nat) (file : option SyncState) (w : W) :
  (exists result r, pull mapping options fuel file w = (Returned result, r))
  <-> (pageLoop mapping options fuel (isFirstRun (loadState file))
         (startRun options file w)).1 <> OutOfFuel.
Proof.
  rewrite pull_unfold.
  destruct (pageLoop _ _ _ _ _) as [[[]|e|] r1]; cbn.
  - split; [intros _ [=]|eauto].
  - split; [intros _ [=]|eauto].
  - split; [intros (result & r & [=])|intros H; contradiction].
Qed.

(** Without pagination one page is enough. *)
Lemma pull_none_returns (fuel : nat) (file : option SyncState) (w : W) :
  pg_type (pagination mapping) = NoPagination ->
  exists result r,
    pull mapping options (S fuel) file w = (Returned result, r).
Proof.
  intros Hnone. apply pull_returns_iff. cbn [pageLoop].
  unfold mbind, M_bind, bind.
  pose proof (pageStep_has_fuel (isFirstRun (loadState file))
                (startRun options file w)) as Hfuel.
  destruct (pageStep _ _ _ _) as [[finished|e|] r1] eqn:Hstep; cbn in *;
    [|discriminate|contradiction].
  destruct (pageStep_returned _ _ _ _ Hstep) as (response & Hd & _).
  assert (finished = true) as ->; [|discriminate].
  rewrite Hd. unfold extractPage. rewrite Hnone.
  destruct (negb _ || _); reflexivity.
Qed.

End EngineFacts.


(** The end-to-end scenario of the specification: two pages under cursor
    pagination, three new records, the state completed and its cursor
    cleared. *)
Example pull_two_pages :
  let run := pull Fake.gmail (Fake.options true) 5 None
               (Fake.start Fake.twoPages) in
  run.1 = Returned
            {| res_name := "gmail-emails"; res_new := 3; res_updated := 0;
               res_skipped := 0; res_errors := 0; res_duration := "0.2s";
               res_status := Completed; res_error := None |}
  /\ status (state run.2) = Completed
  /\ lastCursor (state run.2) = None
  /\ totalSynced (state run.2) = 3.
Proof. vm_compute. auto. Qed.

Section EngineTheorems.
Context {W : Type} `{!PicaClient W, !SyncOutput W, !Clock W}.

Variable mapping : SyncMapping.
Variable options : EngineOptions.

(** C8. Whenever the loop of [pull] ends within the fuel, [pull] returns a
    result, on the completed path or on the error path, and the skipped
    count of that result is 0: no step of the engine increments the
    counter. *)
Theorem pull_skipped_zero (fuel : nat) (file : option SyncState) (w : W) :
  (pageLoop mapping options fuel (isFirstRun (loadState file))
     (startRun options file w)).1 <> OutOfFuel ->
  exists (result : SyncResult) (r : Run W),
    pull mapping options fuel file w = (Returned result, r)
    /\ res_skipped result = 0.
Proof.
  intros Hfuel. rewrite pull_unfold.
  pose proof (keeps_pageLoop mapping options skipped_zero fuel
                (isFirstRun (loadState file)) skipped_zero_invariant
                (startRun options file w) eq_refl) as Hinv.
  destruct (pageLoop _ _ _ _ _) as [[[]|e|] r1]; cbn in Hinv, Hfuel |- *.
  - eexists _, _. split; [reflexivity|]. cbn.
    unfold captureSyncToken.
    destruct (incremental mapping) as [inc|]; [|exact Hinv].
    destruct (inc_type inc); try exact Hinv.
    destruct (Js.truthyOpt (tokenField inc)); exact Hinv.
  - eexists _, _. split; [reflexivity|]. exact Hinv.
  - contradiction.
Qed.

(** C4. When the [try] block of [pull] throws, which the per-item
    handler excludes for item failures and which the page fetch does when
    it fails, [pull] ends with [state.status = "error"] and
    [state.lastError] the message, [state.lastCursor] is the one of the
    last checkpoint written to the state file, and the result carries the
    counts reached so far with one more error. *)
Theorem pull_request_failure (fuel : nat) (file : option SyncState) (w : W)
    (errorMsg : string) (r : Run W) :
  pullTry mapping options fuel (isFirstRun (loadState file)) (now w)
    (startRun options file w) = (Thrown errorMsg, r) ->
  exists (result : SyncResult) (r' : Run W) (checkpoint : SyncState),
    pull mapping options fuel file w = (Returned result, r')
    /\ status (state r') = Error
    /\ lastError (state r') = Some errorMsg
    /\ stateFile r' = Some (state r')
    /\ stateFile r = Some checkpoint
    /\ lastCursor (state r') = lastCursor checkpoint
    /\ res_status result = Error
    /\ res_error result = Some errorMsg
    /\ res_new result = newCount r
    /\ res_updated result = updatedCount r
    /\ res_skipped result = skippedCount r
    /\ res_errors result = errorCount r + 1.
Proof.
  intros Hthrown. apply pullTry_thrown in Hthrown.
  pose proof (keeps_pageLoop mapping options checkpointed fuel
                (isFirstRun (loadState file)) checkpointed_invariant
                (startRun options file w) eq_refl) as Hsaved.
  rewrite pull_unfold, Hthrown. rewrite Hthrown in Hsaved. cbn in Hsaved.
  eexists _, _, (state r). split; [reflexivity|]. cbn.
  repeat split; auto.
Qed.

(** C3, as the code has it.  On the success path of [pull], if the
    incremental strategy is [sync-token] and its [tokenField] is
    configured, the final cursor, the next cursor of the last page, is
    the new [state.syncToken]. *)
Theorem pull_captures_syncToken (fuel : nat) (file : option SyncState)
    (w : W) (result : SyncResult) (r : Run W) (inc : IncrementalConfig) :
  pull mapping options fuel file w = (Returned result, r) ->
  res_status result = Completed ->
  incremental mapping = Some inc ->
  inc_type inc = IncSyncToken ->
  Js.truthyOpt (tokenField inc) = true ->
  syncToken (state r) = cursor r
  /\ exists response : PicaResponse,
       let page :=
         extractPage (data response) (pagination mapping)
           (Some (resp_headers response)) in
       done page = true /\ syncToken (state r) = nextCursor page.
Proof.
  rewrite pull_unfold. intros Hpull Hstatus Hinc Hty Hfield.
  destruct (pageLoop _ _ _ _ _) as [[[]|e|] r1] eqn:Hloop;
    [|injection Hpull as <- <-; discriminate|discriminate].
  injection Hpull as _ <-.
  destruct (pageLoop_returned _ _ _ _ _ _ Hloop) as (response & Hd & Hc & _).
  unfold captureSyncToken. rewrite Hinc, Hty, Hfield. cbn.
  split; [reflexivity|]. exists response. cbn. auto.
Qed.

(** Without the capture, a run leaves the sync token that it loaded. *)
Lemma pull_leaves_syncToken (fuel : nat) (file : option SyncState) (w : W)
    (result : SyncResult) (r : Run W) :
  pull mapping options fuel file w = (Returned result, r) ->
  (forall inc, incremental mapping = Some inc ->
               inc_type inc = IncSyncToken ->
               Js.truthyOpt (tokenField inc) = false) ->
  syncToken (state r) = syncToken (loadState file).
Proof.
  rewrite pull_unfold. intros Hpull Hfield.
  pose proof (keeps_pageLoop mapping options
                (syncToken_is (syncToken (loadState file))) fuel
                (isFirstRun (loadState file)) (syncToken_is_invariant _)
                (startRun options file w) eq_refl) as Hinv.
  destruct (pageLoop _ _ _ _ _) as [[[]|e|] r1]; cbn in Hinv;
    [| |discriminate]; injection Hpull as _ <-; cbn; [|exact Hinv].
  unfold captureSyncToken.
  destruct (incremental mapping) as [inc|]; [|exact Hinv].
  destruct (inc_type inc) eqn:Hty; try exact Hinv.
  rewrite (Hfield inc eq_refl Hty). exact Hinv.
Qed.

End EngineTheorems.

Lemma pull_skipped_zero_witness :
  exists (result : SyncResult) (r : Run Fake.World),
    pull Fake.gmail (Fake.options true) 5 None
      (Fake.start Scenario.failsOnSecondPage) = (Returned result, r)
    /\ res_skipped result = 0.
Proof.
  apply (pull_skipped_zero Fake.gmail (Fake.options true) 5 None
           (Fake.start Scenario.failsOnSecondPage)).
  vm_compute. discriminate.
Defined.

Lemma pull_request_failure_witness :
  exists (result : SyncResult) (r' : Run Fake.World) (checkpoint : SyncState),
    pull Fake.gmail (Fake.options true) 5 None
      (Fake.start Scenario.failsOnSecondPage) = (Returned result, r')
    /\ status (state r') = Error
    /\ lastError (state r') = Some "Pica API error 500: boom"
    /\ stateFile r' = Some (state r')
    /\ stateFile Scenario.failedRun = Some checkpoint
    /\ lastCursor (state r') = lastCursor checkpoint
    /\ res_status result = Error
    /\ res_error result = Some "Pica API error 500: boom"
    /\ res_new result = newCount Scenario.failedRun
    /\ res_updated result = updatedCount Scenario.failedRun
    /\ res_skipped result = skippedCount Scenario.failedRun
    /\ res_errors result = errorCount Scenario.failedRun + 1.
Proof.
  apply (pull_request_failure Fake.gmail (Fake.options true) 5 None
           (Fake.start Scenario.failsOnSecondPage)).
  vm_compute. reflexivity.
Defined.

(** In that run the checkpoint is the cursor of the first page, and two
    records were stored before the failure. *)
Example failedRun_checkpoint :
  lastCursor <$> stateFile Scenario.failedRun = Some (Some "abc")
  /\ newCount Scenario.failedRun = 2
  /\ errorCount Scenario.failedRun = 0.
Proof. vm_compute. auto. Qed.

(** *** The sync token *)

(** C3, as stated, fails: with a [sync-token] strategy that names no
    [tokenField], a completed run leaves the token it loaded, which is not
    the final cursor. *)
Lemma syncToken_not_captured_without_tokenField :
  ~ syncToken_always_captured.
Proof.
  intros Hclaim.
  specialize (Hclaim (Scenario.calendar None) (Fake.options false) 5%nat
                (Some Scenario.interruptedLater)
                (Fake.start Scenario.noEvents)).
  specialize (Hclaim _ _ _ eq_refl eq_refl eq_refl eq_refl).
  vm_compute in Hclaim. discriminate.
Qed.

Lemma pull_captures_syncToken_witness :
  let r :=
    (pull (Scenario.calendar (Some "nextSyncToken")) (Fake.options false) 5
       (Some Scenario.interruptedLater) (Fake.start Scenario.noEvents)).2 in
  syncToken (state r) = cursor r
  /\ exists response : PicaResponse,
       let page :=
         extractPage (data response)
           (pagination (Scenario.calendar (Some "nextSyncToken")))
           (Some (resp_headers response)) in
       done page = true /\ syncToken (state r) = nextCursor page.
Proof.
  apply (pull_captures_syncToken (Scenario.calendar (Some "nextSyncToken"))
           (Fake.options false) 5
           (Some Scenario.interruptedLater) (Fake.start Scenario.noEvents)
           {| res_name := "calendar"; res_new := 0; res_updated := 0;
              res_skipped := 0; res_errors := 0; res_duration := "0.1s";
              res_status := Completed; res_error := None |}
           _
           {| inc_type := IncSyncToken; param := Some "syncToken";
              template := None; tokenField := Some "nextSyncToken" |});
    vm_compute; reflexivity.
Defined.

(** A page that ends the loop carries no cursor: its next cursor is [null]
    or empty, for every pagination type. *)
Lemma done_page_no_cursor (response : JsVal) (config : PaginationConfig)
    (headers : option (gmap string string)) :
  done (extractPage response config headers) = true ->
  noCursor (nextCursor (extractPage response config headers)) = true.
Proof.
  unfold extractPage.
  destruct (negb (Js.truthy response) || _); [reflexivity|].
  destruct (pg_type config); cbn;
    try (destruct (Z.of_nat _ <? _); cbn; [reflexivity|discriminate]);
    try reflexivity; try (intros H; exact H).
  intros H. apply andb_true_iff in H. apply H.
Qed.

(** So the token that a completed run captures is never a usable one. *)
Lemma captured_syncToken_empty `{!PicaClient W, !SyncOutput W, !Clock W}
    (mapping : SyncMapping) (options : EngineOptions) (fuel : nat)
    (file : option SyncState) (w : W) (r1 : Run W) :
  pageLoop mapping options fuel (isFirstRun (loadState file))
    (startRun options file w) = (Returned tt, r1) ->
  noCursor (cursor r1) = true.
Proof.
  intros Hloop.
  destruct (pageLoop_returned _ _ _ _ _ _ Hloop) as (response & Hd & Hc & _).
  rewrite Hc. apply done_page_no_cursor, Hd.
Qed.

(** *** The rewrite for POST *)


(** The request that the engine then sends: the offset is in the query
    parameters, and there is no body. *)
Example post_without_body_request :
  let run := pull Scenario.postWithoutBody (Fake.options true) 5 None
               (Fake.start Scenario.onePerson) in
  (fun sent => (opt_method sent,
                opt_queryParams sent ≫= (.!! "offset"),
                opt_body sent))
    <$> Fake.sent (world run.2)
  = [ (Some "POST", Some (JNum 0), None) ].
Proof. vm_compute. reflexivity. Qed.

Example post_with_body_request :
  let run := pull Scenario.postWithBody (Fake.options true) 5 None
               (Fake.start Scenario.onePerson) in
  (fun sent => (opt_method sent,
                opt_queryParams sent ≫= (.!! "offset"),
                opt_body sent ≫= (.!! "offset"),
                opt_body sent ≫= (.!! "limit")))
    <$> Fake.sent (world run.2)
  = [ (Some "POST", None, Some (JNum 0), Some (JNum 100)) ].
Proof. vm_compute. reflexivity. Qed.

(** Without a body template nothing is rewritten. *)
Lemma mergeIntoBody_no_body (mapping : SyncMapping)
    (params : gmap string JsVal) :
  body (request mapping) = None ->
  mergeIntoBody mapping params = (params, None).
Proof. unfold mergeIntoBody. intros ->. reflexivity. Qed.



(** *** Resuming *)

(** C1, as stated, fails: when no run has completed ([lastSyncAt] is
    [null]) the saved cursor is not used, and the run starts from the first
    page. *)
Lemma first_run_does_not_resume : ~ resumes_whenever_cursor_saved.
Proof.
  intros Hclaim.
  specialize (Hclaim (Fake.options false) (Some Scenario.interrupted)
                (Fake.start Fake.twoPages) "abc" eq_refl eq_refl).
  vm_compute in Hclaim. discriminate.
Qed.

(** The requests of that run: the first one carries no page token. *)
Example first_run_restarts :
  let run := pull Fake.gmail (Fake.options false) 5
               (Some Scenario.interrupted) (Fake.start Fake.twoPages) in
  (fun sent => opt_queryParams sent ≫= (.!! "pageToken"))
    <$> Fake.sent (world run.2)
  = [ None; Some (JStr "abc") ].
Proof. vm_compute. reflexivity. Qed.

Example later_run_resumes :
  let run := pull Fake.gmail (Fake.options false) 5
               (Some Scenario.interruptedLater)
               (Fake.start (tl Fake.twoPages)) in
  (fun sent => opt_queryParams sent ≫= (.!! "pageToken"))
    <$> Fake.sent (world run.2)
  = [ Some (JStr "abc") ].
Proof. vm_compute. reflexivity. Qed.

(** With [full] the query parameters of a page are the static ones with
    the cursor applied, whatever the state holds. *)
Lemma pageQueryParams_full (firstRun : bool) (mapping : SyncMapping)
    (st : SyncState) (cur : option string) (off : Z) :
  pageQueryParams true firstRun mapping st cur off
  = applyCursor (default ∅ (queryParams (request mapping)))
      (pagination mapping) cur off.
Proof.
  unfold pageQueryParams, usesIncremental. cbn.
  destruct (incremental mapping); reflexivity.
Qed.

(** Two runs agree when they differ at most in the state object and the
    state file.  With [full] the engine reads the state nowhere, so two runs
    that agree stay in step: same outcome, same calls, same counters. *)
Section FullSync.
Context {W : Type} `{!PicaClient W, !SyncOutput W, !Clock W}.

Variable mapping : SyncMapping.
Variable options : EngineOptions.
Hypothesis full_sync : full options = true.

Lemma in_step_ret {A} (a : A) : in_step (W:=W) (ret a) (ret a).
Proof. intros r1 r2 H. split; [reflexivity|exact H]. Qed.

Lemma in_step_bind {A B} (m1 m2 : M W A) (k1 k2 : A -> M W B) :
  in_step m1 m2 -> (forall a, in_step (k1 a) (k2 a)) ->
  in_step (bind m1 k1) (bind m2 k2).
Proof.
  intros Hm Hk r1 r2 H. unfold bind. destruct (Hm r1 r2 H) as [Ho Hr].
  destruct (m1 r1) as [o1 r1'], (m2 r2) as [o2 r2']. cbn in Ho, Hr.
  subst o2. destruct o1; cbn; auto. apply Hk, Hr.
Qed.

Lemma in_step_tryCatch {A} (m1 m2 : M W A) (h1 h2 : string -> M W A) :
  in_step m1 m2 -> (forall e, in_step (h1 e) (h2 e)) ->
  in_step (tryCatch m1 h1) (tryCatch m2 h2).
Proof.
  intros Hm Hh r1 r2 H. unfold tryCatch. destruct (Hm r1 r2 H) as [Ho Hr].
  destruct (m1 r1) as [o1 r1'], (m2 r2) as [o2 r2']. cbn in Ho, Hr.
  subst o2. destruct o1; cbn; auto. apply Hh, Hr.
Qed.

Lemma in_step_await {A} (e : effect W A) : in_step (await e) (await e).
Proof.
  intros r1 r2 H. unfold await.
  destruct H as (H1 & H2 & H3 & H4 & H5 & H6 & H7). rewrite H7.
  destruct (e (world r2)) as [[msg|a] w]; cbn; unfold agree; cbn; auto 10.
Qed.

Lemma in_step_modify (f1 f2 : Run W -> Run W) :
  (forall r1 r2, agree r1 r2 -> agree (f1 r1) (f2 r2)) ->
  in_step (modify f1) (modify f2).
Proof. intros Hf r1 r2 H. split; [reflexivity|apply Hf, H]. Qed.

(** A read of the runs that the continuations do not depend on. *)
Lemma in_step_gets {A B} (f : Run W -> A) (k1 k2 : A -> M W B) :
  (forall r1 r2, agree r1 r2 -> in_step (k1 (f r1)) (k2 (f r2))) ->
  in_step (bind (gets f) k1) (bind (gets f) k2).
Proof. intros Hk r1 r2 H. unfold bind, gets. apply (Hk r1 r2 H), H. Qed.

Lemma in_step_forEach {A} (body : A -> M W unit) (xs : list A) :
  (forall x, in_step (body x) (body x)) ->
  in_step (forEach body xs) (forEach body xs).
Proof.
  intros Hbody. induction xs as [|x rest IH]; cbn.
  - apply in_step_ret.
  - apply in_step_bind; auto.
Qed.

Lemma in_step_fetchDetail (item : JsVal) :
  in_step (fetchDetail mapping options item)
          (fetchDetail mapping options item).
Proof.
  unfold fetchDetail.
  destruct (detail mapping) as [d|]; [|apply in_step_ret].
  apply in_step_tryCatch; [|intros ?; apply in_step_ret].
  destruct (extractId item (detail_idField d)); [|apply in_step_ret].
  destruct (Js.truthyStr _); [|apply in_step_ret].
  apply in_step_bind; [apply in_step_await|intros response].
  destruct (Js.truthy _ && _); apply in_step_ret.
Qed.

Lemma agree_counter (f : Run W -> Run W) :
  f = incrErrorCount \/ f = incrNewCount \/ f = incrUpdatedCount ->
  forall r1 r2, agree r1 r2 -> agree (f r1) (f r2).
Proof.
  intros Hf r1 r2 (H1 & H2 & H3 & H4 & H5 & H6 & H7).
  destruct Hf as [->|[->| ->]]; unfold agree; cbn;
    rewrite ?H1, ?H2, ?H4; auto 10.
Qed.

Lemma in_step_processItem (item : JsVal) :
  in_step (processItem mapping options item)
          (processItem mapping options item).
Proof.
  unfold processItem.
  apply in_step_tryCatch;
    [|intros ?; apply in_step_modify, agree_counter; auto].
  destruct (extractId item _);
    [|apply in_step_modify, agree_counter; auto].
  destruct (Js.truthyStr _);
    [|apply in_step_modify, agree_counter; auto].
  apply in_step_bind; [apply in_step_fetchDetail|intros itemData].
  apply in_step_bind; [apply in_step_await|intros upserted].
  apply in_step_bind; [apply in_step_await|intros _].
  destruct (upserted.2); apply in_step_modify, agree_counter; auto.
Qed.

Lemma in_step_fetchPage queryParams body cur :
  in_step (fetchPage mapping options queryParams body cur)
          (fetchPage mapping options queryParams body cur).
Proof.
  unfold fetchPage.
  destruct (pg_type (pagination mapping)); try apply in_step_await.
  destruct (Js.truthyOpt cur); apply in_step_await.
Qed.

Lemma in_step_pageStep (firstRun1 firstRun2 : bool) :
  in_step (pageStep mapping options firstRun1)
          (pageStep mapping options firstRun2).
Proof.
  unfold pageStep. rewrite full_sync.
  apply in_step_gets. intros q1 q2 _.
  apply in_step_gets. intros s1 s2 (_ & _ & _ & _ & _ & -> & _).
  apply in_step_gets. intros t1 t2 (_ & _ & _ & _ & -> & _ & _).
  rewrite !pageQueryParams_full.
  apply in_step_bind; [apply in_step_fetchPage|intros response].
  apply in_step_bind;
    [apply in_step_forEach, in_step_processItem|intros _].
  apply in_step_bind.
  { apply in_step_modify.
    intros r1 r2 (H1 & H2 & H3 & H4 & H5 & H6 & H7).
    unfold agree; cbn. rewrite H5. auto 10. }
  intros _. apply in_step_bind; [|intros _; apply in_step_ret].
  apply in_step_modify. intros r1 r2 H. exact H.
Qed.

Lemma in_step_pageLoop (fuel : nat) (firstRun1 firstRun2 : bool) :
  in_step (pageLoop mapping options fuel firstRun1)
          (pageLoop mapping options fuel firstRun2).
Proof.
  induction fuel as [|fuel IH]; cbn [pageLoop].
  - intros r1 r2 H. split; [reflexivity|exact H].
  - apply in_step_bind; [apply in_step_pageStep|intros finished].
    destruct finished; [apply in_step_ret|exact IH].
Qed.

Lemma agree_startRun (file1 file2 : option SyncState) (w : W) :
  agree (startRun options file1 w) (startRun options file2 w).
Proof.
  unfold agree, startRun, initialCursor. rewrite full_sync. cbn. auto 10.
Qed.

Lemma agree_captureSyncToken (r1 r2 : Run W) :
  agree r1 r2 ->
  agree (captureSyncToken mapping r1) (captureSyncToken mapping r2).
Proof.
  unfold captureSyncToken.
  destruct (incremental mapping) as [inc|]; [|auto].
  destruct (inc_type inc); auto.
  destruct (Js.truthyOpt (tokenField inc)); auto.
Qed.

(** A full resync returns the same result and leaves the same world
    whatever the state file held. *)
Lemma pull_full_ignores_state (fuel : nat) (file1 file2 : option SyncState)
    (w : W) :
  (pull mapping options fuel file1 w).1 = (pull mapping options fuel file2 w).1
  /\ world (pull mapping options fuel file1 w).2
     = world (pull mapping options fuel file2 w).2.
Proof.
  rewrite !pull_unfold.
  destruct (in_step_pageLoop fuel (isFirstRun (loadState file1))
              (isFirstRun (loadState file2)) _ _
              (agree_startRun file1 file2 w)) as [Ho Hr].
  destruct (pageLoop _ _ _ (isFirstRun (loadState file1)) _) as [o1 r1],
           (pageLoop _ _ _ (isFirstRun (loadState file2)) _) as [o2 r2].
  cbn in Ho, Hr. subst o2. destruct o1 as [[]|e|]; cbn.
  - apply agree_captureSyncToken in Hr.
    destruct Hr as (H1 & H2 & H3 & H4 & H5 & H6 & H7).
    rewrite H1, H2, H3, H4, H7. auto.
  - destruct Hr as (H1 & H2 & H3 & H4 & H5 & H6 & H7).
    rewrite H1, H2, H3, H4, H7. auto.
  - destruct Hr as (H1 & H2 & H3 & H4 & H5 & H6 & H7). auto.
Qed.

End FullSync.

(** C1, as the code has it.  With [full = false], a state whose
    [lastSyncAt] and [lastCursor] are both set seeds the cursor of the run
    from [lastCursor]; a state whose [lastSyncAt] is [null] does not.  With
    [full = true] the run starts with [cursor = null] and [offset = 0], no
    page request goes through the incremental filter, and the result and the
    calls of the run are the same whatever the state file holds. *)
Theorem pull_resume_semantics `{!PicaClient W, !SyncOutput W, !Clock W}
    (mapping : SyncMapping) (options : EngineOptions)
    (file : option SyncState) (w : W) :
  let persisted := loadState file in
  let run := startRun options file w in
  (full options = false ->
   Js.truthyOpt (lastSyncAt persisted) = true ->
   Js.truthyOpt (lastCursor persisted) = true ->
   cursor run = lastCursor persisted /\ offset run = 0)
  /\ (full options = false ->
      lastSyncAt persisted = None ->
      cursor run = None /\ offset run = 0)
  /\ (full options = true ->
      cursor run = None /\ offset run = 0
      /\ (forall (firstRun : bool) (st : SyncState) (cur : option string)
                 (off : Z),
            usesIncremental (full options) firstRun mapping st = false
            /\ pageQueryParams (full options) firstRun mapping st cur off
               = applyCursor (default ∅ (queryParams (request mapping)))
                   (pagination mapping) cur off)
      /\ (forall (fuel : nat) (other : option SyncState),
            (pull mapping options fuel file w).1
            = (pull mapping options fuel other w).1
            /\ world (pull mapping options fuel file w).2
               = world (pull mapping options fuel other w).2)).
Proof.
  cbn. unfold initialCursor, isFirstRun. split; [|split].
  - intros Hfull Hsync Hcur. rewrite Hfull, Hsync, Hcur. auto.
  - intros Hfull Hsync. rewrite Hsync. cbn. rewrite andb_false_r. auto.
  - intros Hfull. split; [|split; [|split]].
    + rewrite Hfull. reflexivity.
    + reflexivity.
    + intros firstRun st cur off. rewrite Hfull. split; [reflexivity|].
      apply pageQueryParams_full.
    + intros fuel other. apply pull_full_ignores_state, Hfull.
Qed.

(** The three cases are met by the scripted scenarios. *)
Example resume_cases :
  cursor (startRun (Fake.options false) (Some Scenario.interruptedLater)
            (Fake.start [])) = Some "abc"
  /\ cursor (startRun (Fake.options false) (Some Scenario.interrupted)
               (Fake.start [])) = None
  /\ cursor (startRun (Fake.options true) (Some Scenario.interruptedLater)
               (Fake.start [])) = None.
Proof. vm_compute. auto. Qed.

(** *** Natural keys *)

Lemma endsWith_colon_includes (s : string) :
  Str.endsWith ":" s = true -> Str.includes ":" s = true.
Proof.
  induction s as [|c s IH]; [discriminate|].
  cbn [Str.endsWith Str.includes Str.startsWith String.eqb].
  intros H. apply orb_true_iff in H. apply orb_true_iff. destruct H as [H|H].
  - left. destruct (Ascii.eqb ":" c); [reflexivity|discriminate].
  - right. apply IH, H.
Qed.

Lemma includes_two_colons (s : string) :
  Str.includes "::" s = true -> Str.includes ":" s = true.
Proof.
  induction s as [|c s IH]; [discriminate|].
  cbn [Str.includes Str.startsWith].
  intros H. apply orb_true_iff in H. apply orb_true_iff. destruct H as [H|H].
  - left. destruct (Ascii.eqb ":" c); [reflexivity|discriminate].
  - right. apply IH, H.
Qed.

(** The test that decides whether a key is added: the text that the
    template gives is not empty, does not end with a colon and holds no
    two colons in a row.  Whether a placeholder was resolved is not
    recorded anywhere. *)
Lemma naturalKey_emitted (mappedData : gmap string JsVal) (template : string) :
  naturalKey mappedData template
  = let resolved :=
      Str.replaceFields
        (fun field =>
           let val := default JUndefined (mappedData !! field) in
           if Js.nullish val then EmptyString else Obj.toString val)
        template in
    if Js.truthyStr resolved && negb (Str.endsWith ":" resolved)
       && negb (Str.includes "::" resolved)
    then Some resolved else None.
Proof.
  unfold naturalKey. cbn zeta.
  set (resolved := Str.replaceFields _ template).
  destruct (Js.truthyStr resolved); cbn; [|reflexivity].
  destruct (Str.includes ":" resolved) eqn:Hcolon; cbn.
  - reflexivity.
  - destruct (Str.endsWith ":" resolved) eqn:Hend.
    { apply endsWith_colon_includes in Hend. congruence. }
    destruct (Str.includes "::" resolved) eqn:Htwo.
    { apply includes_two_colons in Htwo. congruence. }
    reflexivity.
Qed.

(** When the placeholders resolve the key is the template with the values
    in place, and a missing placeholder next to a colon drops the key. *)
Example naturalKey_resolved :
  naturalKey {[ "email" := JStr "foo@bar.com" ]} "person:{email}"
  = Some "person:foo@bar.com"
  /\ naturalKey {[ "email" := JNull ]} "person:{email}" = None
  /\ naturalKey {[ "name" := JStr "bob" ]} "person:{email}:{name}" = None.
Proof. vm_compute. auto. Qed.

(** C2 fails on the code.  The claim: a natural-key template whose
    placeholders all resolve gives a key with no placeholder left, and a
    template with a placeholder that does not resolve gives no key.  The
    code: the template [{first}-{last}] on mapped data whose [last] is
    [null] gives the key [John-], which is added to the keys of the item
    and handed to the store; the template [{last}:{first}] gives the key
    [:John], with an empty segment. *)
Theorem naturalKey_unresolved_emitted :
  let item :=
    JObj {[ "id" := JNum 1; "first" := JStr "John"; "last" := JNull ]} in
  let mappedData :=
    applyMapping item (record_mapping (record Scenario.postWithoutBody)) in
  let run := pull Scenario.postWithoutBody (Fake.options true) 5 None
               (Fake.start Scenario.onePerson) in
  mappedData !! "last" = Some JNull
  /\ naturalKey mappedData "{first}-{last}" = Some "John-"
  /\ naturalKey mappedData "{last}:{first}" = Some ":John"
  /\ dedupKeys Scenario.postWithoutBody "1" mappedData = ["attio:1"; "John-"]
  /\ bool_decide ("John-" ∈ Fake.seen (world run.2)) = true.
Proof. vm_compute. auto. Qed.

(** * Further properties *)

(** ** Strings *)

Lemma app_nil_l (s : string) : EmptyString ++ s = s.
Proof. reflexivity. Qed.

Lemma app_cons (c : ascii) (s t : string) :
  String c s ++ t = String c (s ++ t).
Proof. reflexivity. Qed.

Lemma app_nil_r (s : string) : s ++ EmptyString = s.
Proof.
  induction s as [|c s IH]; [reflexivity|]. rewrite app_cons, IH. reflexivity.
Qed.

Lemma app_assoc_str (s t u : string) : (s ++ t) ++ u = s ++ (t ++ u).
Proof.
  induction s as [|c s IH]; [reflexivity|]. rewrite !app_cons, IH. reflexivity.
Qed.

Lemma split_nonempty (sep : ascii) (s : string) : Str.split sep s <> [].
Proof.
  induction s as [|c s IH]; cbn; [discriminate|].
  destruct (Ascii.eqb c sep); [discriminate|].
  destruct (Str.split sep s); [contradiction|discriminate].
Qed.

(** Splitting at a separator splits the list of parts. *)
Lemma split_app (sep : ascii) (p q : string) :
  Str.split sep (p ++ String sep q)
  = (Str.split sep p ++ Str.split sep q)%list.
Proof.
  induction p as [|c p IH]; rewrite ?app_nil_l, ?app_cons; cbn.
  - rewrite Ascii.eqb_refl. reflexivity.
  - destruct (Ascii.eqb c sep); [rewrite IH; reflexivity|].
    rewrite IH. pose proof (split_nonempty sep p) as Hne.
    destruct (Str.split sep p); [contradiction|reflexivity].
Qed.

Lemma split_lacks (sep : ascii) (s : string) :
  lacks sep s -> Str.split sep s = [s].
Proof.
  induction s as [|c s IH]; cbn; [reflexivity|]. intros [Hc Hs].
  destruct (Ascii.eqb_spec c sep); [contradiction|]. rewrite (IH Hs).
  reflexivity.
Qed.

(** ** mapping.ts *)

Lemma isObjectLike_guard (v : JsVal) :
  negb (Js.truthy v) || negb (String.eqb (Js.typeof v) "object")
  = negb (isObjectLike v).
Proof.
  destruct v as [| |b|n|s|xs|props]; try reflexivity.
  - destruct b; reflexivity.
  - cbn. destruct (negb (n =? 0)); reflexivity.
  - cbn. destruct (negb (String.eqb s "")); reflexivity.
Qed.

Lemma resolve_walk_undefined (parts : list string) :
  parts <> [] -> resolve_walk JUndefined parts = JUndefined.
Proof. destruct parts; [contradiction|reflexivity]. Qed.

Lemma resolve_walk_app (current : JsVal) (l1 l2 : list string) :
  l2 <> [] ->
  resolve_walk current (l1 ++ l2)%list
  = resolve_walk (resolve_walk current l1) l2.
Proof.
  intros Hne. revert current. induction l1 as [|part l1 IH]; intros current;
    cbn; [reflexivity|].
  destruct (Js.nullish current);
    [symmetry; apply resolve_walk_undefined, Hne|].
  destruct (negb _);
    [symmetry; apply resolve_walk_undefined, Hne|].
  apply IH.
Qed.

(** Resolving [p.q] is resolving [q] on what [p] resolves to. *)
Lemma resolve_split (obj : JsVal) (p q : string) :
  resolve obj (p ++ "." ++ q) = resolve (resolve obj p) q.
Proof.
  unfold resolve at 1 3.
  destruct (negb (Js.truthy obj) || negb (String.eqb (Js.typeof obj) "object"))
    eqn:Hobj; [reflexivity|].
  change (p ++ "." ++ q) with (p ++ String "." q).
  rewrite split_app, resolve_walk_app by apply split_nonempty.
  pose proof (split_nonempty "." q) as Hq.
  unfold resolve.
  destruct (resolve_walk obj (Str.split "." p)) as [| |b|n|s|xs|props];
    cbn [Js.truthy Js.typeof negb orb String.eqb Ascii.eqb Bool.eqb andb];
    try reflexivity;
    destruct (Str.split "." q) as [|part rest]; try contradiction;
    try reflexivity.
  - destruct b; reflexivity.
  - destruct (negb (n =? 0)); reflexivity.
  - destruct (negb (String.eqb s "")); reflexivity.
Qed.

(** X1. A path resolves in steps: resolving [p.q] is resolving [q] on
    what [p] resolves to, for every root and every two paths; so a path
    through a missing field, [null] or a primitive resolves to
    [undefined]. *)
Theorem resolve_compose (obj : JsVal) (p q : string) :
  resolve obj (p ++ "." ++ q) = resolve (resolve obj p) q
  /\ (isObjectLike (resolve obj p) = false ->
      resolve obj (p ++ "." ++ q) = JUndefined).
Proof.
  split; [apply resolve_split|]. intros Hprim. rewrite resolve_split.
  unfold resolve at 1. rewrite isObjectLike_guard, Hprim. reflexivity.
Qed.

(** A path through a value that is not an object or an array, be it
    missing, [null], a number, a string or a boolean, resolves to
    [undefined]. *)
Lemma resolve_through_primitive (obj : JsVal) (p q : string) :
  Js.isArray (resolve obj p) = false ->
  (forall props, resolve obj p <> JObj props) ->
  resolve obj (p ++ "." ++ q) = JUndefined.
Proof.
  intros Harr Hobj. rewrite resolve_split.
  destruct (resolve obj p) as [| |b|n|s|xs|props]; try reflexivity.
  - destruct b; reflexivity.
  - unfold resolve. cbn. destruct (negb (n =? 0)); reflexivity.
  - unfold resolve. cbn. destruct (negb (String.eqb s "")); reflexivity.
  - discriminate.
  - contradiction (Hobj props). reflexivity.
Qed.

Lemma resolve_through_primitive_witness :
  resolve (JObj {[ "a" := JNull ]}) ("a" ++ "." ++ "b") = JUndefined.
Proof.
  apply resolve_through_primitive; [reflexivity|].
  intros props. vm_compute. discriminate.
Defined.

(** The decimal writing of a number reads back as the number. *)
Lemma digits_pretty_go (x : N) :
  exists d : N, forall (acc : N) (s : string),
    Str.digits acc (pretty_N_go x s) = Str.digits (acc * 10 ^ d + x)%N s.
Proof.
  induction (N.lt_wf_0 x) as [x _ IH].
  destruct (decide (x = 0)%N) as [->|Hx].
  - exists 0%N. intros acc s. rewrite pretty_N_go_0. f_equal. lia.
  - destruct (IH (x `div` 10)%N) as [d Hd]; [apply N.div_lt; lia|].
    exists (d + 1)%N. intros acc s.
    rewrite pretty_N_go_step by lia. rewrite Hd.
    assert (x `mod` 10 < 10)%N as Hlt by (apply N.mod_lt; lia).
    pose proof (N.div_mod x 10 ltac:(lia)) as Hdm.
    cbn [Str.digits].
    assert (Str.isDigit (pretty_N_char (x `mod` 10)) = true
            /\ (N_of_ascii (pretty_N_char (x `mod` 10)) - 48
                = x `mod` 10)%N) as [-> ->].
    { destruct (x `mod` 10)%N as [|m] eqn:E; [split; reflexivity|].
      do 4 (destruct m as [m|m|]; try lia; try (split; reflexivity)). }
    f_equal. rewrite N.pow_add_r. lia.
Qed.

Lemma digits_pretty (n : N) : Str.digits 0 (pretty n) = Some n.
Proof.
  unfold pretty, pretty_N. destruct (decide (n = 0)%N) as [->|Hn];
    [reflexivity|].
  destruct (digits_pretty_go n) as [d Hd]. rewrite Hd. reflexivity.
Qed.

Lemma digits_lacks_dot (acc : N) (s : string) (n : N) :
  Str.digits acc s = Some n -> lacks "." s.
Proof.
  revert acc. induction s as [|c s IH]; intros acc; cbn; [auto|].
  destruct (Str.isDigit c) eqn:Hc; [|discriminate].
  intros H. split; [|apply (IH _ H)]. intros ->. discriminate.
Qed.

Lemma pretty_nonempty (n : N) : pretty n <> EmptyString.
Proof.
  intros H. pose proof (digits_pretty n) as Hd. rewrite H in Hd.
  cbn in Hd. injection Hd as <-. vm_compute in H. discriminate.
Qed.

Lemma arrayIndex_pretty (i : nat) : Obj.arrayIndex (pretty i) = Some i.
Proof.
  unfold Obj.arrayIndex, pretty, pretty_nat.
  pose proof (pretty_nonempty (N.of_nat i)) as Hne.
  destruct (pretty (N.of_nat i)) eqn:E; [contradiction|]. rewrite <- E.
  rewrite digits_pretty, String.eqb_refl. f_equal. lia.
Qed.

(** X2. An element of an array is addressed by its decimal index as a path
    segment: when [p] resolves to an array, [p.i] resolves to its element
    [i], and to [undefined] past its end. *)
Theorem resolve_array_index (obj : JsVal) (p : string) (xs : list JsVal)
    (i : nat) :
  resolve obj p = JArr xs ->
  resolve obj (p ++ "." ++ pretty i) = default JUndefined (xs !! i).
Proof.
  intros Hp. rewrite resolve_split, Hp. unfold resolve. cbn.
  rewrite (split_lacks "." (pretty i)).
  2:{ apply (digits_lacks_dot 0 _ (N.of_nat i)), digits_pretty. }
  cbn. rewrite arrayIndex_pretty.
  destruct (String.eqb_spec (pretty i) "length") as [E|_]; [|reflexivity].
  pose proof (digits_pretty (N.of_nat i)) as Hd.
  unfold pretty, pretty_nat in E. rewrite E in Hd. discriminate.
Qed.

Lemma resolve_array_index_witness :
  resolve (JObj {[ "values" := JArr [JStr "a"; JStr "b"] ]})
    ("values" ++ "." ++ pretty 1%nat)
  = default JUndefined ([JStr "a"; JStr "b"] !! 1%nat).
Proof. apply resolve_array_index. reflexivity. Defined.

(** X3. The data that [applyMapping] returns has no field outside the
    table and holds no [undefined]: every value is a value of the item or
    [null]. *)
Theorem applyMapping_no_undefined (item : JsVal) (table : gmap string string)
    (target : string) (value : JsVal) :
  applyMapping item table !! target = Some value ->
  value <> JUndefined
  /\ exists sourcePath,
       table !! target = Some sourcePath
       /\ (value = resolve item sourcePath \/ value = JNull).
Proof.
  rewrite applyMapping_fmap, lookup_fmap.
  destruct (decide (target = "__proto__")) as [->|Hne].
  { rewrite lookup_delete_eq. discriminate. }
  rewrite lookup_delete_ne by congruence.
  destruct (table !! target) as [sourcePath|]; [|discriminate].
  cbn. intros [= <-]. split.
  - destruct (resolve item sourcePath); discriminate.
  - exists sourcePath. split; [reflexivity|].
    destruct (resolve item sourcePath); cbn; auto.
Qed.

Lemma applyMapping_no_undefined_witness :
  JNull <> JUndefined
  /\ exists sourcePath,
       ({[ "snippet" := "snippet" ]} : gmap string string) !! "snippet"
       = Some sourcePath
       /\ (JNull = resolve (JObj ∅) sourcePath \/ JNull = JNull).
Proof.
  apply (applyMapping_no_undefined (JObj ∅) {[ "snippet" := "snippet" ]}
           "snippet" JNull).
  reflexivity.
Defined.

Lemma rev_app_rev_app (w acc tail : string) :
  String.rev_app (String.rev_app w acc) tail = String.rev_app acc (w ++ tail).
Proof.
  revert acc tail. induction w as [|c w IH]; intros acc tail; cbn.
  - reflexivity.
  - rewrite IH. reflexivity.
Qed.

Lemma rev_rev_app (w : string) : String.rev (String.rev_app w "") = w.
Proof.
  unfold String.rev. rewrite rev_app_rev_app. cbn. apply app_nil_r.
Qed.

(** Text without [{] is copied. *)
Lemma replaceFields_go_literal (f : string -> string) (a rest : string) :
  lacks "{" a ->
  Str.replaceFields_go f Str.Outside (a ++ rest)
  = a ++ Str.replaceFields_go f Str.Outside rest.
Proof.
  induction a as [|c a IH]; [reflexivity|]. intros [Hc Ha].
  rewrite !app_cons. cbn [Str.replaceFields_go].
  destruct (Ascii.eqb_spec c "{"); [contradiction|]. rewrite (IH Ha).
  reflexivity.
Qed.

Lemma replaceFields_literal (f : string -> string) (s : string) :
  lacks "{" s -> Str.replaceFields f s = s.
Proof.
  intros Hs. unfold Str.replaceFields.
  rewrite <- (app_nil_r s) at 1. rewrite replaceFields_go_literal by exact Hs.
  cbn. apply app_nil_r.
Qed.

(** Word characters after a [{] are collected. *)
Lemma replaceFields_go_word (f : string -> string) (w fld rest : string) :
  every Str.isWord w ->
  Str.replaceFields_go f (Str.InBrace fld) (w ++ rest)
  = Str.replaceFields_go f (Str.InBrace (String.rev_app w fld)) rest.
Proof.
  revert fld. induction w as [|c w IH]; intros fld; [reflexivity|].
  intros [Hc Hw]. rewrite app_cons. cbn [Str.replaceFields_go].
  rewrite Hc. apply IH, Hw.
Qed.

(** A placeholder after literal text is replaced by [f] of its name. *)
Lemma replaceFields_placeholder (f : string -> string) (a w b : string) :
  lacks "{" a -> w <> EmptyString -> every Str.isWord w ->
  Str.replaceFields f (a ++ "{" ++ w ++ "}" ++ b)
  = a ++ f w ++ Str.replaceFields f b.
Proof.
  intros Ha Hne Hw. unfold Str.replaceFields.
  rewrite replaceFields_go_literal by exact Ha. f_equal.
  change ("{" ++ w ++ "}" ++ b) with (String "{" (w ++ String "}" b)).
  cbn [Str.replaceFields_go]. cbn [Ascii.eqb Bool.eqb andb].
  rewrite replaceFields_go_word by exact Hw.
  cbn [Str.replaceFields_go].
  change (Str.isWord "}") with false. cbn [Ascii.eqb Bool.eqb andb].
  destruct (String.eqb_spec (String.rev_app w "") EmptyString) as [E|_].
  - exfalso. apply Hne. rewrite <- (rev_rev_app w), E. reflexivity.
  - cbn. change (strings.String.rev (String.rev_app w ""))
      with (String.rev (String.rev_app w "")).
    rewrite rev_rev_app. reflexivity.
Qed.

(** X4. [buildExternalUrl] copies the text of a template up to its first
    placeholder, puts the string form of the item's field in its place,
    or nothing when the field is [null] or missing, and goes on with the
    rest; a template without [{] is returned as it is. *)
Theorem buildExternalUrl_placeholder (item : JsVal) (a w b : string) :
  lacks "{" a -> w <> EmptyString -> every Str.isWord w ->
  buildExternalUrl (a ++ "{" ++ w ++ "}" ++ b) item
  = a ++ (if Js.nullish (resolve item w) then EmptyString
          else Obj.toString (resolve item w))
      ++ buildExternalUrl b item
  /\ buildExternalUrl a item = a.
Proof.
  intros Ha Hne Hw. unfold buildExternalUrl. split.
  - rewrite replaceFields_placeholder by assumption. reflexivity.
  - apply replaceFields_literal, Ha.
Qed.

Lemma buildExternalUrl_placeholder_witness :
  buildExternalUrl ("https://mail.google.com/mail/#inbox/" ++ "{" ++ "id"
                    ++ "}" ++ "?x") (JObj {[ "id" := JNum 42 ]})
  = "https://mail.google.com/mail/#inbox/"
      ++ (if Js.nullish (resolve (JObj {[ "id" := JNum 42 ]}) "id")
          then EmptyString
          else Obj.toString (resolve (JObj {[ "id" := JNum 42 ]}) "id"))
      ++ buildExternalUrl "?x" (JObj {[ "id" := JNum 42 ]})
  /\ buildExternalUrl "https://mail.google.com/mail/#inbox/"
       (JObj {[ "id" := JNum 42 ]})
     = "https://mail.google.com/mail/#inbox/".
Proof.
  apply buildExternalUrl_placeholder; [|discriminate|];
    cbn; repeat split; discriminate.
Defined.

(** ** pagination.ts *)

(** Page-number pagination reads a page exactly as offset pagination
    does: for two configurations that differ in their type only, one
    [page-number] and one [offset], [extractPage] gives the same items, the
    same marker and the same [done]. *)
Lemma extractPage_page_number_as_offset (response : JsVal)
    (byPage byOffset : PaginationConfig)
    (headers : option (gmap string string)) :
  pg_type byPage = PageNumber ->
  pg_type byOffset = Offset ->
  itemsField byPage = itemsField byOffset ->
  pageSize byPage = pageSize byOffset ->
  extractPage response byPage headers = extractPage response byOffset headers.
Proof.
  intros Hp Ho Hitems Hsize. unfold extractPage, pageSizeOr100.
  rewrite Hp, Ho, Hitems, Hsize. reflexivity.
Qed.

Lemma extractPage_page_number_as_offset_witness :
  extractPage (JObj {[ "data" := JArr [JNull] ]})
    {| pg_type := PageNumber; requestParam := Some "page";
       responseField := None; itemsField := Some "data";
       pageSize := Some 100 |} None
  = extractPage (JObj {[ "data" := JArr [JNull] ]}) offsetConfig None.
Proof.
  apply extractPage_page_number_as_offset; reflexivity.
Defined.

(** X5. Under cursor pagination the loop goes on exactly when a next
    cursor that is not empty was read, and a cursor that is read is the
    string form of a truthy value at [responseField]. *)
Theorem extractPage_cursor (response : JsVal) (config : PaginationConfig)
    (headers : option (gmap string string)) :
  pg_type config = Cursor ->
  let page := extractPage response config headers in
  (done page = false
   <-> exists c, nextCursor page = Some c /\ c <> EmptyString)
  /\ (forall c, nextCursor page = Some c ->
        exists field,
          responseField config = Some field
          /\ Js.truthy (resolve response field) = true
          /\ c = Obj.toString (resolve response field)).
Proof.
  intros Hty. unfold extractPage. rewrite Hty.
  destruct (negb (Js.truthy response) || _); cbn zeta.
  - cbn. split; [|discriminate]. split; [discriminate|].
    intros (c & [=] & _).
  - cbn [done nextCursor].
    destruct (responseField config) as [field|]; cbn.
    2:{ split; [|discriminate]. split; [discriminate|].
        intros (c & [=] & _). }
    destruct (Js.truthyStr field); cbn.
    2:{ split; [|discriminate]. split; [discriminate|].
        intros (c & [=] & _). }
    unfold stringOrNull, noCursor.
    destruct (Js.truthy (resolve response field)) eqn:Htruthy; cbn.
    + split.
      * unfold Js.truthyStr.
        destruct (String.eqb_spec (Obj.toString (resolve response field))
                    EmptyString) as [E|E]; cbn.
        -- split; [discriminate|]. intros (c & [= <-] & Hc). contradiction.
        -- split; [|reflexivity]. intros _. eauto.
      * intros c [= <-]. exists field. auto.
    + split; [|discriminate]. split; [discriminate|].
      intros (c & [=] & _).
Qed.

Lemma extractPage_cursor_witness :
  let page :=
    extractPage (JObj {[ "nextPageToken" := JStr "abc" ]})
      (pagination Fake.gmail) None in
  (done page = false
   <-> exists c, nextCursor page = Some c /\ c <> EmptyString)
  /\ (forall c, nextCursor page = Some c ->
        exists field,
          responseField (pagination Fake.gmail) = Some field
          /\ Js.truthy (resolve (JObj {[ "nextPageToken" := JStr "abc" ]})
                          field) = true
          /\ c = Obj.toString
                   (resolve (JObj {[ "nextPageToken" := JStr "abc" ]})
                      field)).
Proof. apply extractPage_cursor. reflexivity. Defined.

(** X6. Under sync-token pagination a page ends the loop exactly when it
    has no item and no token: a page with an item never ends it. *)
Theorem extractPage_syncToken_done (response : JsVal)
    (config : PaginationConfig) (headers : option (gmap string string)) :
  pg_type config = SyncToken ->
  let page := extractPage response config headers in
  done page = true
  <-> items page = [] /\ noCursor (nextCursor page) = true.
Proof.
  intros Hty. unfold extractPage. rewrite Hty.
  destruct (negb (Js.truthy response) || _); cbn zeta.
  - cbn. split; auto.
  - cbn [done items nextCursor].
    match goal with
    | |- context [length ?l] => destruct l as [|x rest]
    end; cbn.
    + split; [auto|intros [_ H]; exact H].
    + split; [discriminate|intros [[=] _]].
Qed.

Lemma extractPage_syncToken_done_witness :
  let page :=
    extractPage (JObj {[ "items" := JArr [JNull] ]})
      (pagination (Scenario.calendar None)) None in
  done page = true
  <-> items page = [] /\ noCursor (nextCursor page) = true.
Proof. apply extractPage_syncToken_done. reflexivity. Defined.

Lemma startsWith_app (p s : string) : Str.startsWith p (p ++ s) = true.
Proof.
  induction p as [|c p IH]; [reflexivity|]. rewrite app_cons. cbn.
  rewrite Ascii.eqb_refl. exact IH.
Qed.

Lemma untilClose_app (url rest : string) :
  lacks ">" url ->
  Link.untilClose (url ++ String ">" rest) = Some (url, rest).
Proof.
  induction url as [|c url IH]; [reflexivity|]. intros [Hc Hurl].
  rewrite app_cons. cbn. destruct (Ascii.eqb_spec c ">"); [contradiction|].
  rewrite (IH Hurl). reflexivity.
Qed.

Lemma skipSpaces_app (ws rest : string) :
  every Str.isSpace ws ->
  Link.skipSpaces (ws ++ Link.relNext ++ rest) = Link.relNext ++ rest.
Proof.
  induction ws as [|c ws IH]; [reflexivity|]. intros [Hc Hws].
  rewrite app_cons. cbn [Link.skipSpaces]. rewrite Hc. apply IH, Hws.
Qed.

(** The link that a well-formed header names as next is found behind any
    text that holds no [<]. *)
Lemma matchNext_next (pre url ws post : string) :
  lacks "<" pre -> url <> EmptyString -> lacks ">" url ->
  every Str.isSpace ws ->
  Link.matchNext (pre ++ "<" ++ url ++ ">;" ++ ws ++ Link.relNext ++ post)
  = Some url.
Proof.
  intros Hpre Hne Hurl Hws. induction pre as [|c pre IH].
  - change ("" ++ "<" ++ url ++ ">;" ++ ws ++ Link.relNext ++ post)
      with (String "<" (url ++ String ">"
              (String ";" (ws ++ Link.relNext ++ post)))).
    cbn [Link.matchNext Ascii.eqb Bool.eqb andb]. unfold Link.matchHere.
    rewrite untilClose_app by exact Hurl.
    destruct url as [|c url]; [contradiction|].
    cbn [Ascii.eqb Bool.eqb andb].
    rewrite skipSpaces_app by exact Hws. rewrite startsWith_app. reflexivity.
  - destruct Hpre as [Hc Hpre]. rewrite app_cons. cbn [Link.matchNext].
    destruct (Ascii.eqb_spec c "<"); [contradiction|]. apply IH, Hpre.
Qed.

(** X7. Under link-header pagination, a [link] header that names a next
    link, [<url>; rel="next"] behind text without [<], gives that URL as the
    next cursor and [done = false]. *)
Theorem extractPage_link_next (response : JsVal) (config : PaginationConfig)
    (h : gmap string string) (pre url ws post : string) :
  pg_type config = LinkHeader ->
  isObjectLike response = true ->
  h !! "link"
  = Some (pre ++ "<" ++ url ++ ">;" ++ ws ++ Link.relNext ++ post) ->
  lacks "<" pre -> url <> EmptyString -> lacks ">" url ->
  every Str.isSpace ws ->
  nextCursor (extractPage response config (Some h)) = Some url
  /\ done (extractPage response config (Some h)) = false.
Proof.
  intros Hty Hobj Hlink Hpre Hne Hurl Hws.
  assert (forall other,
            orString
              (Some (pre ++ "<" ++ url ++ ">;" ++ ws ++ Link.relNext ++ post))
              other
            = pre ++ "<" ++ url ++ ">;" ++ ws ++ Link.relNext ++ post)
    as Hheader.
  { intros other. unfold orString. destruct pre; reflexivity. }
  unfold extractPage.
  rewrite isObjectLike_guard, Hobj, Hty. cbn [negb nextCursor done].
  rewrite Hlink, Hheader, matchNext_next by assumption.
  split; [reflexivity|].
  unfold noCursor. cbn. unfold Js.truthyStr.
  destruct (String.eqb_spec url EmptyString); [contradiction|reflexivity].
Qed.

Lemma extractPage_link_next_witness :
  let h : gmap string string :=
    {[ "link" := "" ++ "<" ++ "https://api.x/next" ++ ">;" ++ " "
                 ++ Link.relNext ++ ", <https://api.x/last>; rel=last" ]} in
  let config :=
    {| pg_type := LinkHeader; requestParam := None; responseField := None;
       itemsField := None; pageSize := None |} in
  nextCursor (extractPage (JArr []) config (Some h))
  = Some "https://api.x/next"
  /\ done (extractPage (JArr []) config (Some h)) = false.
Proof.
  apply (extractPage_link_next (JArr []) _ _
           "" "https://api.x/next" " " ", <https://api.x/last>; rel=last").
  all: try reflexivity; try discriminate.
  all: cbn; repeat split; discriminate.
Defined.

Lemma truthyStr_nonempty (s : string) :
  s <> EmptyString -> Js.truthyStr s = true.
Proof.
  intros Hne. unfold Js.truthyStr.
  destruct (String.eqb_spec s EmptyString); [contradiction|reflexivity].
Qed.






(** ** engine.ts: the incremental filter *)

(** X10. [applyIncrementalFilter] changes at most the key that
    [incremental.param] names, and returns the parameters as they are when
    [param] is unset: a filter that lacks its fields degrades to a pull
    without filter. *)
Theorem applyIncrementalFilter_frame (params : gmap string JsVal)
    (inc : IncrementalConfig) (st : SyncState) :
  (forall k : string,
      param inc <> Some k ->
      applyIncrementalFilter params inc st !! k = params !! k)
  /\ (Js.truthyOpt (param inc) = false ->
      applyIncrementalFilter params inc st = params).
Proof.
  unfold applyIncrementalFilter. split.
  - intros k Hk. destruct (param inc) as [key|] eqn:Hkey; cbn.
    + assert (key <> k) by congruence.
      destruct (inc_type inc);
        repeat match goal with
               | |- context [if ?b then _ else _] => destruct b
               end;
        rewrite ?lookup_insert_ne by assumption; reflexivity.
    + destruct (inc_type inc); reflexivity.
  - intros ->. destruct (inc_type inc); reflexivity.
Qed.







(** ** engine.ts: the request and the keys *)


Lemma naturalKey_wellformed (mappedData : gmap string JsVal)
    (template key : string) :
  naturalKey mappedData template = Some key ->
  key <> EmptyString /\ Str.endsWith ":" key = false
  /\ Str.includes "::" key = false.
Proof.
  rewrite naturalKey_emitted. cbn zeta.
  destruct (Js.truthyStr _ && negb _ && negb _) eqn:Hguard; [|discriminate].
  intros [= <-].
  apply andb_true_iff in Hguard as [Hguard Htwo].
  apply andb_true_iff in Hguard as [Hne Hend].
  apply negb_true_iff in Htwo, Hend. repeat split; try assumption.
  intros E. rewrite E in Hne. discriminate.
Qed.

(** X13. The keys of an item start with [system:externalId]; every key
    after it comes from a natural-key template, is not empty, does not end
    with a colon and holds no two colons in a row; there is at most one per
    template, in the order of the templates. *)
Theorem dedupKeys_shape (mapping : SyncMapping) (externalId : string)
    (mappedData : gmap string JsVal) :
  exists natural : list string,
    dedupKeys mapping externalId mappedData
    = (system (externalRef mapping) ++ ":" ++ externalId) :: natural
    /\ (length natural
        <= length (default [] (naturalKeys (record mapping))))%nat
    /\ Forall (fun key => key <> EmptyString
                          /\ Str.endsWith ":" key = false
                          /\ Str.includes "::" key = false) natural.
Proof.
  unfold dedupKeys. eexists. split; [reflexivity|].
  destruct (naturalKeys (record mapping)) as [templates|]; cbn;
    [|split; [lia|constructor]].
  split.
  - induction templates as [|t templates IH]; cbn; [lia|].
    destruct (naturalKey mappedData t); cbn; lia.
  - induction templates as [|t templates IH]; cbn; [constructor|].
    destruct (naturalKey mappedData t) as [key|] eqn:Hkey; [|exact IH].
    constructor; [|exact IH]. apply (naturalKey_wellformed _ _ _ Hkey).
Qed.

(** ** engine.ts: the run *)

Section RunFacts.
Context {W : Type} `{!PicaClient W, !SyncOutput W, !Clock W}.

Variable mapping : SyncMapping.
Variable options : EngineOptions.

Implicit Types r : Run W.

(** The detail request changes the world only, and fails silently. *)
Lemma fetchDetail_effect (item : JsVal) r :
  exists itemData r',
    fetchDetail mapping options item r = (Returned itemData, r')
    /\ r' = set_world (world r') r
    /\ (itemData = item \/ isObjectLike itemData = true).
Proof.
  unfold fetchDetail, tryCatch.
  assert (r = set_world (world r) r) as Hr by (destruct r; reflexivity).
  destruct (detail mapping) as [d|]; [|exists item, r; auto].
  destruct (extractId item (detail_idField d)) as [detailId|];
    [|exists item, r; auto].
  destruct (Js.truthyStr detailId); [|exists item, r; auto].
  unfold mbind, M_bind, bind, await.
  destruct (picaRequest _ (world r)) as [[msg|response] w]; cbn.
  - exists item, (set_world w r). auto.
  - destruct (Js.truthy (data response) && _) eqn:Hobj; cbn.
    + exists (data response), (set_world w r). repeat split. right.
      apply andb_true_iff in Hobj as [Ht Hty].
      destruct (data response) as [| |b|n|s|xs|props]; try discriminate;
        reflexivity.
    + exists item, (set_world w r). auto.
Qed.

(** What an item does to a run: it returns, and the run differs in the
    world and in one counter. *)
Lemma processItem_effect (item : JsVal) r :
  exists r',
    processItem mapping options item r = (Returned tt, r')
    /\ (r' = incrErrorCount (set_world (world r') r)
        \/ r' = incrNewCount (set_world (world r') r)
        \/ r' = incrUpdatedCount (set_world (world r') r)).
Proof.
  assert (r = set_world (world r) r) as Hr by (destruct r; reflexivity).
  unfold processItem, tryCatch.
  destruct (extractId item _) as [externalId|];
    [|eexists; split; [reflexivity|]; left; cbn; congruence].
  destruct (Js.truthyStr externalId);
    [|eexists; split; [reflexivity|]; left; cbn; congruence].
  unfold mbind, M_bind, bind.
  destruct (fetchDetail_effect item r) as (itemData & r1 & -> & Hr1 & _).
  unfold await.
  destruct (upsert _ (world r1)) as [[msg|upserted] w2]; cbn.
  { eexists; split; [reflexivity|]. left. rewrite Hr1. reflexivity. }
  destruct (addRef _ _ w2) as [[msg|[]] w3]; cbn.
  { eexists; split; [reflexivity|]. left. rewrite Hr1. reflexivity. }
  destruct (upserted.2); cbn; eexists; (split; [reflexivity|]).
  - right; left. rewrite Hr1. reflexivity.
  - right; right. rewrite Hr1. reflexivity.
Qed.

(** An item adds one to the tally and leaves the rest. *)
Lemma processItem_counts (item : JsVal) r :
  exists r',
    processItem mapping options item r = (Returned tt, r')
    /\ tally r' = tally r + 1
    /\ newCount r <= newCount r' /\ updatedCount r <= updatedCount r'
    /\ errorCount r <= errorCount r'
    /\ skippedCount r' = skippedCount r
    /\ offset r' = offset r /\ cursor r' = cursor r
    /\ state r' = state r /\ stateFile r' = stateFile r.
Proof.
  destruct (processItem_effect item r) as (r' & Hrun & Hr').
  exists r'. split; [exact Hrun|].
  unfold tally. destruct Hr' as [->|[-> | ->]]; cbn; repeat split; lia.
Qed.

Lemma forEach_processItem_counts (xs : list JsVal) r :
  exists r',
    forEach (processItem mapping options) xs r = (Returned tt, r')
    /\ tally r' = tally r + Z.of_nat (length xs)
    /\ newCount r <= newCount r' /\ updatedCount r <= updatedCount r'
    /\ errorCount r <= errorCount r'
    /\ skippedCount r' = skippedCount r
    /\ offset r' = offset r /\ cursor r' = cursor r
    /\ state r' = state r /\ stateFile r' = stateFile r.
Proof.
  revert r. induction xs as [|x xs IH]; intros r; cbn [forEach].
  - exists r. cbn. repeat split; lia.
  - unfold bind.
    destruct (processItem_counts x r)
      as (r1 & -> & Ht & Hn & Hu & He & Hs & Ho & Hc & Hst & Hf).
    destruct (IH r1) as (r2 & -> & Ht2 & Hn2 & Hu2 & He2 & Hs2 & Ho2 & Hc2
                         & Hst2 & Hf2).
    exists r2. split; [reflexivity|].
    cbn [length]. repeat split; try lia; congruence.
Qed.

(** A turn of the loop keeps the account. *)
Lemma keeps_accounted (firstRun : bool) :
  keeps accounted (pageStep mapping options firstRun).
Proof.
  intros r (Ht & Hn & Hu & He).
  destruct (pageStep mapping options firstRun r) as [[finished|msg|] r'] eqn:E;
    cbn.
  - revert E. unfold pageStep; unfold_run.
    destruct (fetchPage _ _ _ _ _ r) as [[response|e|] r1] eqn:Hfetch;
      try discriminate.
    assert (r1 = set_world (world r1) r) as Hr1.
    { revert Hfetch. unfold fetchPage, await.
      destruct (pg_type (pagination mapping));
        try destruct (Js.truthyOpt (cursor r));
        match goal with
        | |- context [picaRequest ?o ?w0] =>
            destruct (picaRequest o w0) as [[?|?] ?]
        | |- context [picaRequestUrl ?u ?s ?c ?a ?w0] =>
            destruct (picaRequestUrl u s c a w0) as [[?|?] ?]
        end; intros [= <- <-] || intros [=]; reflexivity. }
    destruct (forEach_processItem_counts
                (items (extractPage (data response) (pagination mapping)
                          (Some (resp_headers response)))) r1)
      as (r2 & -> & Ht2 & Hn2 & Hu2 & He2 & _ & Ho2 & _).
    intros [= _ <-]. rewrite Hr1 in Ht2, Hn2, Hu2, He2, Ho2.
    unfold accounted, tally in *. cbn in *. lia.
  - rewrite (pageStep_thrown mapping options _ _ _ _ E).
    unfold accounted, tally. cbn. auto.
  - contradiction (pageStep_has_fuel mapping options firstRun r).
    rewrite E. reflexivity.
Qed.

Lemma keeps_pageLoop_from (P : Run W -> Prop) (fuel : nat) (firstRun : bool) :
  keeps P (pageStep mapping options firstRun) ->
  keeps P (pageLoop mapping options fuel firstRun).
Proof.
  intros Hstep. induction fuel as [|fuel IH]; cbn [pageLoop].
  - apply keeps_outOfFuel.
  - apply keeps_bind; [exact Hstep|intros finished].
    apply keeps_if; [apply keeps_ret|exact IH].
Qed.

Lemma state_upto_cursor_invariant (st0 : SyncState) :
  step_invariant (W:=W) (state_upto_cursor st0).
Proof.
  split; unfold state_upto_cursor; intros; cbn in *; try assumption.
  destruct H as [c' ->]. eexists. reflexivity.
Qed.

End RunFacts.

Section RunTheorems.
Context {W : Type} `{!PicaClient W, !SyncOutput W, !Clock W}.

Variable mapping : SyncMapping.
Variable options : EngineOptions.

Implicit Types r : Run W.

(** [pull] returns on one of two paths. *)
Lemma pull_cases (fuel : nat) (file : option SyncState) (w : W)
    (result : SyncResult) r :
  pull mapping options fuel file w = (Returned result, r) ->
  exists r1,
    accounted r1 /\ checkpointed r1
    /\ state_upto_cursor (runningState file) r1
    /\ ((pageLoop mapping options fuel (isFirstRun (loadState file))
           (startRun options file w) = (Returned tt, r1)
         /\ r = finalize (captureSyncToken mapping r1)
         /\ res_status result = Completed /\ res_error result = None
         /\ res_errors result = errorCount r1)
        \/ (exists msg,
              pageLoop mapping options fuel (isFirstRun (loadState file))
                (startRun options file w) = (Thrown msg, r1)
              /\ r = saveState (set_state (failedState msg r1) r1)
              /\ res_status result = Error /\ res_error result = Some msg
              /\ res_errors result = errorCount r1 + 1))
    /\ res_new result = newCount r1
    /\ res_updated result = updatedCount r1.
Proof.
  rewrite pull_unfold.
  pose proof (keeps_pageLoop_from mapping options accounted fuel
                (isFirstRun (loadState file))
                (keeps_accounted mapping options _)
                (startRun options file w)) as Hacc.
  pose proof (keeps_pageLoop mapping options checkpointed fuel
                (isFirstRun (loadState file)) checkpointed_invariant
                (startRun options file w) eq_refl) as Hsaved.
  pose proof (keeps_pageLoop mapping options
                (state_upto_cursor (runningState file)) fuel
                (isFirstRun (loadState file))
                (state_upto_cursor_invariant _)
                (startRun options file w)) as Hstate.
  destruct (pageLoop _ _ _ _ _) as [[[]|msg|] r1]; cbn in Hacc, Hsaved, Hstate;
    [| |discriminate]; intros [= <- <-]; exists r1.
  - split; [apply Hacc; unfold accounted, tally; cbn; lia|].
    split; [exact Hsaved|].
    split; [apply Hstate; eexists; reflexivity|].
    split; [left; repeat split|].
    + unfold captureSyncToken.
      destruct (incremental mapping) as [inc|]; [|reflexivity].
      destruct (inc_type inc); try reflexivity.
      destruct (Js.truthyOpt (tokenField inc)); reflexivity.
    + unfold captureSyncToken.
      destruct (incremental mapping) as [inc|]; [|auto].
      destruct (inc_type inc); auto.
      destruct (Js.truthyOpt (tokenField inc)); auto.
  - split; [apply Hacc; unfold accounted, tally; cbn; lia|].
    split; [exact Hsaved|].
    split; [apply Hstate; eexists; reflexivity|].
    split; [right; exists msg; repeat split|]. auto.
Qed.

(** X14. An item is counted once, whatever the detail request and the
    store do: [processItem] returns, adds one to exactly one of the counters
    of new, updated and failed items, and leaves the skipped count, the
    offset, the cursor, the state and the state file as they are. *)
Theorem processItem_counts_once (item : JsVal) r :
  exists r',
    processItem mapping options item r = (Returned tt, r')
    /\ ((newCount r' = newCount r + 1 /\ updatedCount r' = updatedCount r
         /\ errorCount r' = errorCount r)
        \/ (newCount r' = newCount r /\ updatedCount r' = updatedCount r + 1
            /\ errorCount r' = errorCount r)
        \/ (newCount r' = newCount r /\ updatedCount r' = updatedCount r
            /\ errorCount r' = errorCount r + 1))
    /\ skippedCount r' = skippedCount r
    /\ offset r' = offset r /\ cursor r' = cursor r
    /\ state r' = state r /\ stateFile r' = stateFile r.
Proof.
  destruct (processItem_effect mapping options item r) as (r' & Hrun & Hr').
  exists r'. split; [exact Hrun|].
  destruct Hr' as [->|[-> | ->]]; cbn; repeat split; auto.
Qed.

(** X15. Every item of the pages read is accounted for: when [pull]
    returns, the counts of new, updated and failed items are not negative
    and add up to the number of items read, plus one on the error path. *)
Theorem pull_accounts_items (fuel : nat) (file : option SyncState) (w : W)
    (result : SyncResult) r :
  pull mapping options fuel file w = (Returned result, r) ->
  res_new result + res_updated result + res_errors result
  = offset r + (match res_status result with Error => 1 | _ => 0 end)
  /\ 0 <= res_new result /\ 0 <= res_updated result
  /\ 0 <= res_errors result.
Proof.
  intros Hpull.
  destruct (pull_cases _ _ _ _ _ Hpull)
    as (r1 & (Ht & Hn & Hu & He) & _ & _ & Hpath & Hnew & Hupd).
  unfold tally in Ht.
  destruct Hpath as [(_ & -> & -> & _ & ->)|(msg & _ & -> & -> & _ & ->)];
    cbn.
  - assert (offset (captureSyncToken mapping r1) = offset r1) as ->.
    { unfold captureSyncToken.
      destruct (incremental mapping) as [inc|]; [|reflexivity].
      destruct (inc_type inc); try reflexivity.
      destruct (Js.truthyOpt (tokenField inc)); reflexivity. }
    lia.
  - lia.
Qed.

(** An item without a usable external id, one whose id path resolves
    to [undefined], [null] or the empty string, is counted as failed, and
    nothing is asked of the transport or of the store for it. *)
Lemma processItem_without_id (item : JsVal) r :
  Js.nullish (resolve item (idField (externalRef mapping))) = true
  \/ resolve item (idField (externalRef mapping)) = JStr EmptyString ->
  processItem mapping options item r = (Returned tt, incrErrorCount r).
Proof.
  intros Hid. unfold processItem, tryCatch, extractId.
  destruct Hid as [-> | ->]; reflexivity.
Qed.

(** X16. The detail request is best effort: it never throws, it changes
    nothing but the world, and what is mapped is the list item itself or an
    object that the detail request returned. *)
Theorem fetchDetail_best_effort (item : JsVal) r :
  exists itemData r',
    fetchDetail mapping options item r = (Returned itemData, r')
    /\ r' = set_world (world r') r
    /\ (itemData = item \/ isObjectLike itemData = true).
Proof. apply fetchDetail_effect. Qed.

(** X17. A completed run saves a state that is completed, with no cursor
    and no error, with [lastSyncAt] set, with [lastRunRecords] the count of
    new records and [totalSynced] grown by that count, which is not
    negative. *)
Theorem pull_completed_state (fuel : nat) (file : option SyncState) (w : W)
    (result : SyncResult) r :
  pull mapping options fuel file w = (Returned result, r) ->
  res_status result = Completed ->
  stateFile r = Some (state r)
  /\ status (state r) = Completed
  /\ lastCursor (state r) = None
  /\ lastError (state r) = None
  /\ (exists t, lastSyncAt (state r) = Some t)
  /\ lastRunRecords (state r) = res_new result
  /\ totalSynced (state r)
     = totalSynced (loadState file) + res_new result
  /\ 0 <= res_new result.
Proof.
  intros Hpull Hstatus.
  destruct (pull_cases _ _ _ _ _ Hpull)
    as (r1 & (_ & Hn & _) & _ & [c Hst] & Hpath & Hnew & _).
  destruct Hpath as [(_ & -> & _)|(msg & _ & _ & E & _)]; [|congruence].
  rewrite Hnew.
  assert (newCount (captureSyncToken mapping r1) = newCount r1
          /\ totalSynced (state (captureSyncToken mapping r1))
             = totalSynced (loadState file)) as [Hcount Htotal].
  { unfold captureSyncToken.
    destruct (incremental mapping) as [inc|]; [|rewrite Hst; auto].
    destruct (inc_type inc); [rewrite Hst; auto| |rewrite Hst; auto].
    destruct (Js.truthyOpt (tokenField inc)); cbn; rewrite Hst; auto. }
  cbn. rewrite Hcount, Htotal. repeat split; eauto.
Qed.

(** X18. A failed run does not move the marks of the last success: the
    state it saves has the [lastSyncAt], the [totalSynced] and the
    [syncToken] that were loaded, and [lastRunRecords] is the count of new
    records of the failed run. *)
Theorem pull_failed_state (fuel : nat) (file : option SyncState) (w : W)
    (result : SyncResult) r :
  pull mapping options fuel file w = (Returned result, r) ->
  res_status result = Error ->
  lastSyncAt (state r) = lastSyncAt (loadState file)
  /\ totalSynced (state r) = totalSynced (loadState file)
  /\ syncToken (state r) = syncToken (loadState file)
  /\ lastRunRecords (state r) = res_new result.
Proof.
  intros Hpull Hstatus.
  destruct (pull_cases _ _ _ _ _ Hpull)
    as (r1 & _ & _ & [c Hst] & Hpath & Hnew & _).
  destruct Hpath as [(_ & _ & E & _)|(msg & _ & -> & _)]; [congruence|].
  cbn. rewrite Hst, Hnew. auto.
Qed.

(** X19. After a failed run, a run without [full] resumes from the cursor
    that the failed run saved when an earlier run had completed, and starts
    from the first page when none had: a first run that fails is started
    over. *)
Theorem resume_after_failure (fuel : nat) (file : option SyncState) (w : W)
    (result : SyncResult) r (next : EngineOptions) (w' : W) :
  pull mapping options fuel file w = (Returned result, r) ->
  res_status result = Error ->
  full next = false ->
  (Js.truthyOpt (lastSyncAt (loadState file)) = true ->
   Js.truthyOpt (lastCursor (state r)) = true ->
   cursor (startRun next (stateFile r) w') = lastCursor (state r))
  /\ (lastSyncAt (loadState file) = None ->
      cursor (startRun next (stateFile r) w') = None).
Proof.
  intros Hpull Hstatus Hfull.
  destruct (pull_cases _ _ _ _ _ Hpull)
    as (r1 & _ & _ & [c Hst] & Hpath & _).
  destruct Hpath as [(_ & _ & E & _)|(msg & _ & -> & _)]; [congruence|].
  cbn. unfold initialCursor, isFirstRun. cbn. rewrite Hfull, Hst. cbn.
  split.
  - intros -> Hcur. cbn in Hcur |- *. rewrite Hcur. reflexivity.
  - intros ->. reflexivity.
Qed.

(** X20. The sync token that a completed run captures is never a token:
    the loop ends on a page without next cursor, so with a [sync-token]
    strategy and a [tokenField] the saved [syncToken] is [null] or empty. *)
Theorem pull_syncToken_never_usable (fuel : nat) (file : option SyncState)
    (w : W) (result : SyncResult) r (inc : IncrementalConfig) :
  pull mapping options fuel file w = (Returned result, r) ->
  res_status result = Completed ->
  incremental mapping = Some inc ->
  inc_type inc = IncSyncToken ->
  Js.truthyOpt (tokenField inc) = true ->
  syncToken (state r) = None \/ syncToken (state r) = Some EmptyString.
Proof.
  intros Hpull Hstatus Hinc Hty Hfield.
  destruct (pull_cases _ _ _ _ _ Hpull) as (r1 & _ & _ & _ & Hpath & _).
  destruct Hpath as [(Hloop & -> & _)|(msg & _ & _ & E & _)]; [|congruence].
  pose proof (captured_syncToken_empty _ _ _ _ _ _ Hloop) as Hempty.
  unfold captureSyncToken. rewrite Hinc, Hty, Hfield. cbn.
  unfold noCursor, Js.truthyOpt, Js.truthyStr in Hempty.
  destruct (cursor r1) as [[|a rest]|]; [auto| |auto].
  cbn in Hempty. discriminate Hempty.
Qed.

(** The loop stops for lack of fuel after a page, with the page's cursor
    saved. *)
Lemma pageLoop_cut (fuel : nat) (firstRun : bool) r r' :
  fuel <> 0%nat ->
  pageLoop mapping options fuel firstRun r = (OutOfFuel, r') ->
  lastCursor (state r') = cursor r'.
Proof.
  revert r. induction fuel as [|fuel IH]; intros r Hne; [contradiction|].
  cbn [pageLoop]. unfold mbind, M_bind, bind.
  pose proof (pageStep_has_fuel mapping options firstRun r) as Hfuel.
  destruct (pageStep mapping options firstRun r) as [[finished|e|] r1] eqn:E;
    cbn in Hfuel; [|discriminate|contradiction].
  destruct finished; [discriminate|].
  destruct fuel as [|fuel].
  - cbn. intros [= <-].
    destruct (pageStep_returned _ _ _ _ _ _ E) as (response & _ & Hc & Hl).
    congruence.
  - apply IH. discriminate.
Qed.

(** X21. After every page the state file is a checkpoint: when the loop is
    cut after a number of pages, the file holds the state object, which
    says running, has no error, keeps the loaded [lastSyncAt], and has the
    next cursor of the last page read as its [lastCursor]. *)
Theorem pageLoop_checkpoint (fuel : nat) (file : option SyncState) (w : W) r :
  fuel <> 0%nat ->
  pageLoop mapping options fuel (isFirstRun (loadState file))
    (startRun options file w) = (OutOfFuel, r) ->
  stateFile r = Some (state r)
  /\ status (state r) = Running
  /\ lastError (state r) = None
  /\ lastSyncAt (state r) = lastSyncAt (loadState file)
  /\ lastCursor (state r) = cursor r.
Proof.
  intros Hne Hloop.
  pose proof (keeps_pageLoop mapping options checkpointed fuel
                (isFirstRun (loadState file)) checkpointed_invariant
                (startRun options file w) eq_refl) as Hsaved.
  pose proof (keeps_pageLoop mapping options
                (state_upto_cursor (runningState file)) fuel
                (isFirstRun (loadState file))
                (state_upto_cursor_invariant _)
                (startRun options file w)
                ltac:(eexists; reflexivity)) as [c Hst].
  rewrite Hloop in Hsaved, Hst. cbn in Hsaved, Hst.
  split; [exact Hsaved|].
  pose proof (pageLoop_cut _ _ _ _ Hne Hloop) as Hcut.
  rewrite Hst in Hcut |- *. cbn in Hcut |- *. auto.
Qed.

(** X22. Sync-token pagination does not end while pages have items: if
    every answer of the transport is a page with at least one item, the
    loop of [pull] runs out of any fuel. *)
Theorem syncToken_pages_never_end (fuel : nat) (file : option SyncState)
    (w : W) :
  pg_type (pagination mapping) = SyncToken ->
  (forall opts w0, exists response w1,
      picaRequest opts w0 = (inr response, w1)
      /\ items (extractPage (data response) (pagination mapping)
                  (Some (resp_headers response))) <> []) ->
  (pull mapping options fuel file w).1 = OutOfFuel.
Proof.
  intros Hty Hserver. rewrite pull_unfold.
  assert (forall firstRun r,
            (pageLoop mapping options fuel firstRun r).1 = OutOfFuel) as Hloop.
  { intros firstRun. induction fuel as [|n IH]; intros r; [reflexivity|].
    cbn [pageLoop]. unfold pageStep; unfold_run.
    unfold fetchPage. rewrite Hty. unfold await.
    match goal with
    | |- context [picaRequest ?o ?w0] =>
        destruct (Hserver o w0) as (response & w1 & -> & Hitems)
    end.
    destruct (forEach_processItem_returns mapping options
                (items (extractPage (data response) (pagination mapping)
                          (Some (resp_headers response)))) (set_world w1 r))
      as [r2 ->].
    assert (done (extractPage (data response) (pagination mapping)
                    (Some (resp_headers response))) = false) as ->.
    { revert Hitems. unfold extractPage. rewrite Hty.
      destruct (negb _ || _); cbn; [contradiction|].
      match goal with
      | |- context [length ?l] => destruct l
      end; [contradiction|reflexivity]. }
    apply IH. }
  specialize (Hloop (isFirstRun (loadState file)) (startRun options file w)).
  destruct (pageLoop _ _ _ _ _) as [[[]|msg|] r1]; cbn in Hloop;
    try discriminate. reflexivity.
Qed.

End RunTheorems.

Lemma pull_accounts_items_witness :
  let result :=
    {| res_name := "gmail-emails"; res_new := 2; res_updated := 0;
       res_skipped := 0; res_errors := 1; res_duration := "0.2s";
       res_status := Error; res_error := Some "Pica API error 500: boom" |} in
  let r :=
    (pull Fake.gmail (Fake.options true) 5 None
       (Fake.start Scenario.failsOnSecondPage)).2 in
  res_new result + res_updated result + res_errors result
  = offset r + (match res_status result with Error => 1 | _ => 0 end)
  /\ 0 <= res_new result /\ 0 <= res_updated result
  /\ 0 <= res_errors result.
Proof.
  apply (pull_accounts_items Fake.gmail (Fake.options true) 5 None
           (Fake.start Scenario.failsOnSecondPage)).
  vm_compute. reflexivity.
Defined.

Lemma processItem_without_id_witness :
  processItem Fake.gmail (Fake.options true)
    (JObj {[ "snippet" := JStr "no id" ]})
    (startRun (Fake.options true) None (Fake.start []))
  = (Returned tt,
     incrErrorCount (startRun (Fake.options true) None (Fake.start []))).
Proof.
  apply processItem_without_id. left. reflexivity.
Defined.

Lemma pull_completed_state_witness :
  let result :=
    {| res_name := "gmail-emails"; res_new := 3; res_updated := 0;
       res_skipped := 0; res_errors := 0; res_duration := "0.2s";
       res_status := Completed; res_error := None |} in
  let r :=
    (pull Fake.gmail (Fake.options true) 5 None
       (Fake.start Fake.twoPages)).2 in
  stateFile r = Some (state r)
  /\ status (state r) = Completed
  /\ lastCursor (state r) = None
  /\ lastError (state r) = None
  /\ (exists t, lastSyncAt (state r) = Some t)
  /\ lastRunRecords (state r) = res_new result
  /\ totalSynced (state r) = totalSynced (loadState None) + res_new result
  /\ 0 <= res_new result.
Proof.
  apply (pull_completed_state Fake.gmail (Fake.options true) 5 None
           (Fake.start Fake.twoPages));
    vm_compute; reflexivity.
Defined.

Lemma pull_failed_state_witness :
  let result :=
    {| res_name := "gmail-emails"; res_new := 2; res_updated := 0;
       res_skipped := 0; res_errors := 1; res_duration := "0.2s";
       res_status := Error; res_error := Some "Pica API error 500: boom" |} in
  let file := Some Scenario.interruptedLater in
  let r :=
    (pull Fake.gmail (Fake.options true) 5 file
       (Fake.start Scenario.failsOnSecondPage)).2 in
  lastSyncAt (state r) = lastSyncAt (loadState file)
  /\ totalSynced (state r) = totalSynced (loadState file)
  /\ syncToken (state r) = syncToken (loadState file)
  /\ lastRunRecords (state r) = res_new result.
Proof.
  apply (pull_failed_state Fake.gmail (Fake.options true) 5
           (Some Scenario.interruptedLater)
           (Fake.start Scenario.failsOnSecondPage));
    vm_compute; reflexivity.
Defined.

Lemma resume_after_failure_witness :
  let file := Some Scenario.interruptedLater in
  let r :=
    (pull Fake.gmail (Fake.options true) 5 file
       (Fake.start Scenario.failsOnSecondPage)).2 in
  (Js.truthyOpt (lastSyncAt (loadState file)) = true ->
   Js.truthyOpt (lastCursor (state r)) = true ->
   cursor (startRun (Fake.options false) (stateFile r) (Fake.start []))
   = lastCursor (state r))
  /\ (lastSyncAt (loadState file) = None ->
      cursor (startRun (Fake.options false) (stateFile r) (Fake.start []))
      = None).
Proof.
  apply (resume_after_failure Fake.gmail (Fake.options true) 5
           (Some Scenario.interruptedLater)
           (Fake.start Scenario.failsOnSecondPage)
           {| res_name := "gmail-emails"; res_new := 2; res_updated := 0;
              res_skipped := 0; res_errors := 1; res_duration := "0.2s";
              res_status := Error;
              res_error := Some "Pica API error 500: boom" |});
    vm_compute; reflexivity.
Defined.

Lemma pull_syncToken_never_usable_witness :
  let r :=
    (pull (Scenario.calendar (Some "nextSyncToken")) (Fake.options false) 5
       (Some Scenario.interruptedLater) (Fake.start Scenario.noEvents)).2 in
  syncToken (state r) = None \/ syncToken (state r) = Some EmptyString.
Proof.
  apply (pull_syncToken_never_usable
           (Scenario.calendar (Some "nextSyncToken"))
           (Fake.options false) 5
           (Some Scenario.interruptedLater) (Fake.start Scenario.noEvents)
           {| res_name := "calendar"; res_new := 0; res_updated := 0;
              res_skipped := 0; res_errors := 0; res_duration := "0.1s";
              res_status := Completed; res_error := None |}
           _
           {| inc_type := IncSyncToken; param := Some "syncToken";
              template := None; tokenField := Some "nextSyncToken" |});
    vm_compute; reflexivity.
Defined.

Lemma pageLoop_checkpoint_witness :
  let r :=
    (pageLoop Fake.gmail (Fake.options true) 1 true
       (startRun (Fake.options true) None (Fake.start Fake.twoPages))).2 in
  stateFile r = Some (state r)
  /\ status (state r) = Running
  /\ lastError (state r) = None
  /\ lastSyncAt (state r) = lastSyncAt (loadState None)
  /\ lastCursor (state r) = cursor r.
Proof.
  apply (pageLoop_checkpoint Fake.gmail (Fake.options true) 1 None
           (Fake.start Fake.twoPages));
    [discriminate|vm_compute; reflexivity].
Defined.

(** In that run the checkpoint after the first page is its token. *)
Example checkpoint_after_first_page :
  lastCursor <$> stateFile
    (pageLoop Fake.gmail (Fake.options true) 1 true
       (startRun (Fake.options true) None (Fake.start Fake.twoPages))).2
  = Some (Some "abc").
Proof. vm_compute. reflexivity. Qed.

Lemma syncToken_pages_never_end_witness :
  (pull (Scenario.calendar None) (Fake.options true) 7 None
     {| Endless.asked := 0 |}).1 = OutOfFuel.
Proof.
  apply syncToken_pages_never_end; [reflexivity|].
  intros opts w0. eexists _, _. split; [reflexivity|].
  vm_compute. discriminate.
Defined.

Lemma pull_none_returns_witness :
  exists result r,
    pull singlePage (Fake.options true) 1 None (Fake.start Fake.twoPages)
    = (Returned result, r).
Proof.
  apply (pull_none_returns singlePage (Fake.options true) 0 None
           (Fake.start Fake.twoPages)).
  reflexivity.
Defined.

(** ** output/stdout.ts *)

Lemma foldl_insert_lookup (keys : list string) (m : gmap string string)
    (id k : string) :
  foldl (fun m key => <[key := id]> m) m keys !! k
  = if decide (k ∈ keys) then Some id else m !! k.
Proof.
  revert m. induction keys as [|key keys IH]; intros m; cbn.
  - destruct (decide (k ∈ [])) as [Hin|_]; [inversion Hin|reflexivity].
  - rewrite IH. destruct (decide (k ∈ keys)) as [Hin|Hnin].
    + rewrite decide_True by (right; exact Hin). reflexivity.
    + destruct (decide (k = key)) as [->|Hne].
      * rewrite decide_True by left. apply lookup_insert_eq.
      * rewrite decide_False.
        -- apply lookup_insert_ne. congruence.
        -- intros Hin. apply elem_of_cons in Hin as [?|?]; contradiction.
Qed.

(** X23. [upsert] of the line-oriented output answers [updated] exactly
    when one of the keys of the record has been seen; afterwards every key
    of the record leads to the new id, the other keys are as before, and
    one line has been written with the record and its id. *)
Theorem stdout_upsert_dedup (record : UpsertRecord) (s : Stdout.Store) :
  let id := (Stdout.upsert record s).1.1 in
  let s' := (Stdout.upsert record s).2 in
  ((Stdout.upsert record s).1.2 = Updated
   <-> exists key, key ∈ up_keys record /\ is_Some (Stdout.seen s !! key))
  /\ (forall key, key ∈ up_keys record -> Stdout.seen s' !! key = Some id)
  /\ (forall key, key ∉ up_keys record ->
        Stdout.seen s' !! key = Stdout.seen s !! key)
  /\ Stdout.printed s'
     = (Stdout.printed s
        ++ [ {| Stdout.line_id := id; Stdout.line_type := up_type record;
                Stdout.line_data := up_data record;
                Stdout.line_tags := up_tags record;
                Stdout.line_keys := up_keys record |} ])%list.
Proof.
  cbn. split; [|split; [|split]].
  - destruct (existsb _ (up_keys record)) eqn:Hex.
    + split; [intros _|reflexivity].
      apply existsb_exists in Hex as (key & Hin & Hseen).
      exists key. split; [apply list_elem_of_In, Hin|].
      apply bool_decide_eq_true_1 in Hseen. exact Hseen.
    + split; [discriminate|]. intros (key & Hin & Hseen).
      assert (existsb (fun key => bool_decide (is_Some (Stdout.seen s !! key)))
                (up_keys record) = true) as Htrue; [|congruence].
      apply existsb_exists. exists key.
      split; [apply list_elem_of_In, Hin|].
      apply bool_decide_eq_true_2, Hseen.
  - intros key Hin. rewrite foldl_insert_lookup, decide_True by exact Hin.
    reflexivity.
  - intros key Hnin. rewrite foldl_insert_lookup, decide_False by exact Hnin.
    reflexivity.
  - reflexivity.
Qed.

Lemma record_id_inj (n m : nat) :
  "record-" ++ pretty n = "record-" ++ pretty m -> n = m.
Proof.
  intros H. apply (inj (String.app "record-")) in H.
  apply (inj pretty) in H. exact H.
Qed.

(** X24. The ids of the line-oriented output are fresh: an [upsert]
    advances the counter by one, and two of them at different counts give
    different ids. *)
Theorem stdout_ids_fresh (record1 record2 : UpsertRecord)
    (s1 s2 : Stdout.Store) :
  Stdout.counter s1 <> Stdout.counter s2 ->
  (Stdout.upsert record1 s1).1.1 <> (Stdout.upsert record2 s2).1.1
  /\ Stdout.counter (Stdout.upsert record1 s1).2 = S (Stdout.counter s1)
  /\ (Stdout.upsert record1 s1).1.1
     <> (Stdout.upsert record2 (Stdout.upsert record1 s1).2).1.1.
Proof.
  intros Hne. cbn. repeat split.
  - intros H. apply record_id_inj in H. lia.
  - intros H. apply record_id_inj in H. lia.
Qed.

Lemma stdout_ids_fresh_witness :
  let record :=
    {| up_type := "email"; up_data := ∅; up_tags := None;
       up_keys := ["gmail:1"] |} in
  let s2 := (Stdout.upsert record Stdout.empty).2 in
  (Stdout.upsert record Stdout.empty).1.1 <> (Stdout.upsert record s2).1.1
  /\ Stdout.counter (Stdout.upsert record Stdout.empty).2
     = S (Stdout.counter Stdout.empty)
  /\ (Stdout.upsert record Stdout.empty).1.1
     <> (Stdout.upsert record (Stdout.upsert record Stdout.empty).2).1.1.
Proof.
  apply stdout_ids_fresh. cbn. discriminate.
Defined.

(** X25. What the engine stores is found by its reference: after [upsert]
    of a record with the keys that the engine builds, [findByRef] of the
    system and the external id gives the id that [upsert] returned; after
    [addRef], [findByRef] of the same pair gives the record id of the
    reference. *)
Theorem stdout_ref_round_trip (mapping : SyncMapping) (externalId : string)
    (record : UpsertRecord) (recordId : string) (ref : RefRecord)
    (s : Stdout.Store) :
  (exists data, up_keys record = dedupKeys mapping externalId data) ->
  Stdout.findByRef (system (externalRef mapping)) externalId
    (Stdout.upsert record s).2 = Some (Stdout.upsert record s).1.1
  /\ Stdout.findByRef (ref_system ref) (ref_externalId ref)
       (Stdout.addRef recordId ref s) = Some recordId.
Proof.
  intros [data Hkeys]. split.
  - unfold Stdout.findByRef. cbn. rewrite foldl_insert_lookup, Hkeys.
    rewrite decide_True; [reflexivity|]. unfold dedupKeys. left.
  - unfold Stdout.findByRef, Stdout.addRef. cbn. apply lookup_insert_eq.
Qed.

Lemma stdout_ref_round_trip_witness :
  let record :=
    {| up_type := "email"; up_data := ∅; up_tags := None;
       up_keys := dedupKeys Fake.gmail "17" ∅ |} in
  Stdout.findByRef (system (externalRef Fake.gmail)) "17"
    (Stdout.upsert record Stdout.empty).2
  = Some (Stdout.upsert record Stdout.empty).1.1
  /\ Stdout.findByRef "gmail" "17"
       (Stdout.addRef "record-1"
          {| ref_system := "gmail"; ref_externalId := "17";
             ref_url := None |} Stdout.empty)
     = Some "record-1".
Proof.
  apply (stdout_ref_round_trip Fake.gmail "17" _ "record-1"
           {| ref_system := "gmail"; ref_externalId := "17";
              ref_url := None |}).
  exists ∅. reflexivity.
Defined.

Section StdoutRun.
Context {T : Type} `{!PicaClient T, !Clock T}.

Variable mapping : SyncMapping.
Variable options : EngineOptions.

Implicit Types r : Run (Stdout.World T).

(** The detail request does not touch the store. *)
Lemma stdout_fetchDetail_store (item : JsVal) r :
  Stdout.store (world (fetchDetail mapping options item r).2)
  = Stdout.store (world r).
Proof.
  unfold fetchDetail, tryCatch.
  destruct (detail mapping) as [d|]; [|reflexivity].
  destruct (extractId item (detail_idField d)) as [detailId|];
    [|reflexivity].
  destruct (Js.truthyStr detailId); [|reflexivity].
  unfold mbind, M_bind, bind, await. cbn. unfold Stdout.lift.
  destruct (picaRequest _ (Stdout.transport (world r))) as [[msg|response] t];
    cbn; [reflexivity|].
  destruct (Js.truthy (data response) && _); reflexivity.
Qed.

(** An item with an id, written to the standard output: it is never a
    failure, its reference is seen afterwards, and it is an update when its
    reference was seen before. *)
Lemma stdout_processItem (item : JsVal) (externalId : string) r :
  extractId item (idField (externalRef mapping)) = Some externalId ->
  externalId <> EmptyString ->
  let key := system (externalRef mapping) ++ ":" ++ externalId in
  let r' := (processItem mapping options item r).2 in
  is_Some (Stdout.seen (Stdout.store (world r')) !! key)
  /\ errorCount r' = errorCount r
  /\ (is_Some (Stdout.seen (Stdout.store (world r)) !! key) ->
      updatedCount r' = updatedCount r + 1 /\ newCount r' = newCount r).
Proof.
  intros Hid Hne. cbn zeta. unfold processItem, tryCatch.
  rewrite Hid, (truthyStr_nonempty _ Hne).
  unfold mbind, M_bind, bind.
  pose proof (stdout_fetchDetail_store item r) as Hstore.
  destruct (fetchDetail_effect mapping options item r)
    as (itemData & r1 & Hdetail & Hr1 & _).
  rewrite Hdetail in Hstore |- *. cbn in Hstore.
  unfold await. cbn.
  destruct (bool_decide _ || existsb _ _) eqn:Hex; cbn.
  - split; [rewrite lookup_insert_eq; eauto|].
    split; [rewrite Hr1; reflexivity|]. intros _. rewrite Hr1. auto.
  - split; [rewrite lookup_insert_eq; eauto|].
    split; [rewrite Hr1; reflexivity|]. intros Hseen. exfalso.
    apply orb_false_iff in Hex as [Hkey _].
    rewrite Hstore, bool_decide_eq_true_2 in Hkey by exact Hseen.
    discriminate.
Qed.

(** X26. With the line-oriented output an item that has an id is stored
    as new or as updated, never counted as failed, and the same item
    processed again is an update.  This is for an item, and for answers of
    the detail request, that [String] can write: the engine writes the id,
    the fields of the natural keys and the fields of the url as strings
    inside the [try] block of the item, and a value on which [String]
    throws makes the item a failure. *)
Theorem stdout_same_item_twice (item : JsVal) (externalId : string) r :
  extractId item (idField (externalRef mapping)) = Some externalId ->
  externalId <> EmptyString ->
  Obj.printable item = true ->
  (forall opts (t t' : T) response,
      picaRequest opts t = (inr response, t') ->
      Obj.printable (data response) = true) ->
  let r1 := (processItem mapping options item r).2 in
  let r2 := (processItem mapping options item r1).2 in
  errorCount r2 = errorCount r
  /\ updatedCount r2 = updatedCount r1 + 1
  /\ newCount r2 = newCount r1.
Proof.
  intros Hid Hne _ _ r1 r2.
  destruct (stdout_processItem item externalId r Hid Hne)
    as (Hseen & Herr & _).
  destruct (stdout_processItem item externalId r1 Hid Hne)
    as (_ & Herr2 & Hupd).
  fold r1 in Hseen, Herr. fold r2 in Herr2, Hupd.
  destruct (Hupd Hseen) as [Hu Hn]. repeat split; congruence.
Qed.

End StdoutRun.

Lemma stdout_same_item_twice_witness :
  let item := Fake.message 7 in
  let r :=
    startRun (W:=Stdout.World Endless.World) (Fake.options true) None
      {| Stdout.transport := {| Endless.asked := 0 |};
         Stdout.store := Stdout.empty |} in
  let r1 := (processItem Fake.gmail (Fake.options true) item r).2 in
  let r2 := (processItem Fake.gmail (Fake.options true) item r1).2 in
  errorCount r2 = errorCount r
  /\ updatedCount r2 = updatedCount r1 + 1
  /\ newCount r2 = newCount r1.
Proof.
  apply (stdout_same_item_twice Fake.gmail (Fake.options true)
           (Fake.message 7) "7");
    [reflexivity|discriminate|reflexivity|].
  intros opts t t' response [= <- _]. reflexivity.
Defined.

(** ** state.ts *)

Lemma length_app_str (s t : string) :
  String.length (s ++ t) = (String.length s + String.length t)%nat.
Proof.
  induction s as [|c s IH]; [reflexivity|]. rewrite app_cons. cbn.
  rewrite IH. reflexivity.
Qed.

Lemma app_inv_tail_str (a b t : string) : a ++ t = b ++ t -> a = b.
Proof.
  revert b. induction a as [|c a IH]; intros [|d b] H.
  - reflexivity.
  - apply (f_equal String.length) in H. rewrite app_nil_l, length_app_str in H.
    cbn in H. lia.
  - apply (f_equal String.length) in H. rewrite app_nil_l, length_app_str in H.
    cbn in H. lia.
  - rewrite !app_cons in H. injection H as -> H. f_equal. apply IH, H.
Qed.

Lemma fileName_inj (a b : string) :
  Files.fileName a = Files.fileName b -> a = b.
Proof. apply app_inv_tail_str. Qed.

(** The state files are independent by plain name: [loadState] after
    [saveState] gives the saved state for the same name and what it gave
    before for every other name, and a name without file loads the default
    state. *)
Lemma state_file_round_trip (d : Files.Dir) (name other : string)
    (st : SyncState) :
  Files.plainName name = true ->
  Files.plainName other = true ->
  Files.loadState (Files.saveState name st d) name = st
  /\ (other <> name ->
      Files.loadState (Files.saveState name st d) other
      = Files.loadState d other)
  /\ (Files.stateFiles d !! Files.fileName name = None ->
      Files.loadState d name = defaultState).
Proof.
  intros _ _. unfold Files.loadState, Files.saveState. cbn. split; [|split].
  - rewrite lookup_insert_eq. reflexivity.
  - intros Hne. rewrite lookup_insert_ne; [reflexivity|].
    intros E. apply fileName_inj in E. congruence.
  - intros ->. reflexivity.
Qed.

(** X27. For plain names (no path separator, see [Files.plainName]):
    [removeMapping] of a name without mapping file answers [false] and
    removes nothing, also not a state file of that name; of a name with a
    mapping file it answers [true], after which the mapping is not found,
    the state of the name is the default one, and the other plain names are
    as before. *)
Theorem removeMapping_effect (d : Files.Dir) (name other : string) :
  Files.plainName name = true ->
  Files.plainName other = true ->
  (Files.loadMapping d name = None -> Files.removeMapping d name = (false, d))
  /\ (is_Some (Files.loadMapping d name) ->
      (Files.removeMapping d name).1 = true
      /\ Files.loadMapping (Files.removeMapping d name).2 name = None
      /\ Files.loadState (Files.removeMapping d name).2 name = defaultState
      /\ (other <> name ->
          Files.loadMapping (Files.removeMapping d name).2 other
          = Files.loadMapping d other
          /\ Files.loadState (Files.removeMapping d name).2 other
             = Files.loadState d other)).
Proof.
  intros _ _.
  unfold Files.removeMapping, Files.loadMapping, Files.loadState. split.
  - intros ->. reflexivity.
  - intros [m ->]. cbn. rewrite !lookup_delete_eq. repeat split.
    + apply lookup_delete_ne. intros E. apply fileName_inj in E. congruence.
    + rewrite lookup_delete_ne; [reflexivity|].
      intros E. apply fileName_inj in E. congruence.
Qed.

Lemma removeMapping_effect_witness :
  let d :=
    Files.saveMapping Scenario.postWithoutBody
      (Files.saveState "gmail-emails" Scenario.interrupted
         (Files.saveMapping Fake.gmail
            {| Files.configFile := None; Files.mappingFiles := ∅;
               Files.stateFiles := ∅ |})) in
  (Files.loadMapping d "gmail-emails" = None ->
   Files.removeMapping d "gmail-emails" = (false, d))
  /\ (is_Some (Files.loadMapping d "gmail-emails") ->
      (Files.removeMapping d "gmail-emails").1 = true
      /\ Files.loadMapping (Files.removeMapping d "gmail-emails").2
           "gmail-emails" = None
      /\ Files.loadState (Files.removeMapping d "gmail-emails").2
           "gmail-emails" = defaultState
      /\ ("contacts" <> "gmail-emails" ->
          Files.loadMapping (Files.removeMapping d "gmail-emails").2 "contacts"
          = Files.loadMapping d "contacts"
          /\ Files.loadState (Files.removeMapping d "gmail-emails").2
               "contacts"
             = Files.loadState d "contacts")).
Proof.
  apply (removeMapping_effect _ "gmail-emails" "contacts"); reflexivity.
Defined.

Lemma endsWith_app (p s : string) : Str.endsWith p (s ++ p) = true.
Proof.
  induction s as [|c s IH].
  - rewrite app_nil_l. destruct p; cbn; [reflexivity|].
    rewrite Ascii.eqb_refl, String.eqb_refl. reflexivity.
  - rewrite app_cons. cbn [Str.endsWith]. rewrite IH. apply orb_true_r.
Qed.

(** An occurrence of [.json] that starts in front of an appended [.json]
    lies within the front. *)
Lemma startsWith_json_app (s : string) :
  s <> EmptyString ->
  Str.startsWith ".json" (s ++ ".json") = true ->
  Str.startsWith ".json" s = true.
Proof.
  destruct s as [|c0 [|c1 [|c2 [|c3 [|c4 s]]]]]; intros Hne;
    [contradiction|..];
    rewrite ?app_cons, ?app_nil_l; cbn [Str.startsWith];
    repeat match goal with
           | |- context [Ascii.eqb ?a ?b] =>
               lazymatch b with
               | Ascii _ _ _ _ _ _ _ _ => fail
               | _ => destruct (Ascii.eqb a b)
               end
           end; cbn; congruence.
Qed.

Lemma replaceFirst_json (name : string) :
  Str.includes ".json" name = false ->
  Str.replaceFirst ".json" EmptyString (name ++ ".json") = name.
Proof.
  induction name as [|c name IH]; [reflexivity|].
  cbn [Str.includes]. intros H. apply orb_false_iff in H as [Hhere Hrest].
  rewrite app_cons. cbn [Str.replaceFirst]. rewrite <- app_cons.
  destruct (Str.startsWith ".json" (String c name ++ ".json")) eqn:E.
  - apply startsWith_json_app in E; [congruence|discriminate].
  - rewrite (IH Hrest). reflexivity.
Qed.

(** X28. A mapping that was saved under a plain name (no path separator,
    see [Files.plainName]) is found again by [loadMapping], and it is
    listed under its name when the name does not hold [.json]:
    [listMappings] takes the first [.json] out of each file name that ends
    with it. *)
Theorem listMappings_saved (d : Files.Dir) (mapping : SyncMapping) :
  Files.plainName (name mapping) = true ->
  Str.includes ".json" (name mapping) = false ->
  name mapping ∈ Files.listMappings (Files.saveMapping mapping d)
  /\ Files.loadMapping (Files.saveMapping mapping d) (name mapping)
     = Some mapping.
Proof.
  intros _ Hclean. split.
  - unfold Files.listMappings, Files.saveMapping. cbn.
    apply list_elem_of_fmap. exists (Files.fileName (name mapping)). split.
    + unfold Files.fileName. rewrite replaceFirst_json by exact Hclean.
      reflexivity.
    + apply list_elem_of_filter. split.
      * apply endsWith_app.
      * apply elem_of_elements, elem_of_dom. rewrite lookup_insert_eq. eauto.
  - unfold Files.loadMapping, Files.saveMapping. cbn. apply lookup_insert_eq.
Qed.

Lemma listMappings_saved_witness :
  name Fake.gmail
    ∈ Files.listMappings
        (Files.saveMapping Fake.gmail
           {| Files.configFile := None; Files.mappingFiles := ∅;
              Files.stateFiles := ∅ |})
  /\ Files.loadMapping
       (Files.saveMapping Fake.gmail
          {| Files.configFile := None; Files.mappingFiles := ∅;
             Files.stateFiles := ∅ |}) (name Fake.gmail)
     = Some Fake.gmail.
Proof. apply listMappings_saved; reflexivity. Defined.

(** A name that holds [.json] is listed under another name, which has no
    mapping. *)
Example listMappings_json_in_name :
  Str.replaceFirst ".json" EmptyString (Files.fileName "a.json.b")
  = "a.b.json".
Proof. reflexivity. Qed.

(** ** cli.ts *)

Lemma splitLast_app (s : string) (u : ascii) :
  splitLast (s ++ String u EmptyString) = Some (s, u).
Proof.
  induction s as [|c s IH]; [reflexivity|].
  rewrite app_cons. cbn [splitLast]. rewrite IH.
  destruct s; reflexivity.
Qed.

Lemma unitMillis_positive (u : ascii) (millis : Z) :
  unitMillis u = Some millis -> 0 < millis /\ Str.isDigit u = false.
Proof.
  unfold unitMillis.
  destruct (Ascii.eqb_spec u "s") as [->|_]; [intros [= <-]; split; [lia|reflexivity]|].
  destruct (Ascii.eqb_spec u "m") as [->|_]; [intros [= <-]; split; [lia|reflexivity]|].
  destruct (Ascii.eqb_spec u "h") as [->|_]; [intros [= <-]; split; [lia|reflexivity]|].
  destruct (Ascii.eqb_spec u "d") as [->|_]; [intros [= <-]; split; [lia|reflexivity]|].
  discriminate.
Qed.

Lemma unitMillis_none (u : ascii) :
  unitMillis u = None ->
  Ascii.eqb u "s" = false /\ Ascii.eqb u "m" = false
  /\ Ascii.eqb u "h" = false /\ Ascii.eqb u "d" = false.
Proof.
  unfold unitMillis.
  destruct (Ascii.eqb u "s"); [discriminate|].
  destruct (Ascii.eqb u "m"); [discriminate|].
  destruct (Ascii.eqb u "h"); [discriminate|].
  destruct (Ascii.eqb u "d"); [discriminate|]. auto.
Qed.

(** A natural number of at most 53 bits is a double. *)
Lemma ofZ_exact (n : Z) :
  0 <= n <= 9007199254740991 -> Number.ofZ n = Number.Finite n.
Proof.
  intros [Hlo Hhi]. unfold Number.ofZ.
  destruct (Z.leb_spec (Z.log2 n - 52) 0) as [_|Hbig]; [reflexivity|].
  exfalso.
  assert (0 < n) as Hpos.
  { destruct (Z.eq_dec n 0) as [->|]; [cbn in Hbig|]; lia. }
  pose proof (Z.log2_spec n Hpos) as [Hlog _].
  assert (2 ^ 53 <= 2 ^ Z.log2 n) by (apply Z.pow_le_mono_r; lia).
  change (2 ^ 53) with 9007199254740992 in *. lia.
Qed.

Lemma mul_exact (n k : Z) :
  0 <= n * k <= 9007199254740991 ->
  Number.mul (Number.Finite n) k = Number.Finite (n * k).
Proof. intros H. cbn. apply ofZ_exact, H. Qed.

(** X29. [parseDuration] reads a decimal number followed by a unit as that
    many seconds, minutes, hours or days in milliseconds, when the interval
    is a safe integer (at most [2^53 - 1], so that no product is rounded),
    and [watch] accepts the interval unless it is zero. *)
Theorem parseDuration_reads (n : N) (u : ascii) (millis : Z) :
  unitMillis u = Some millis ->
  Z.of_N n * millis <= 9007199254740991 ->
  parseDuration (pretty n ++ String u EmptyString)
  = Some (Number.Finite (Z.of_N n * millis))
  /\ watchInterval (pretty n ++ String u EmptyString)
     = if decide (n = 0%N) then None
       else Some (Number.Finite (Z.of_N n * millis)).
Proof.
  intros Hu Hsafe.
  assert (parseDuration (pretty n ++ String u EmptyString)
          = Some (Number.Finite (Z.of_N n * millis))) as Hparse.
  { unfold parseDuration. rewrite splitLast_app.
    pose proof (pretty_nonempty n) as Hne.
    destruct (pretty n) as [|c number] eqn:E; [contradiction|].
    rewrite <- E, digits_pretty. cbn zeta.
    unfold unitMillis in Hu.
    destruct (Ascii.eqb u "s");
      [|destruct (Ascii.eqb u "m");
        [|destruct (Ascii.eqb u "h");
          [|destruct (Ascii.eqb u "d"); [|discriminate]]]];
      injection Hu as <-;
      rewrite ofZ_exact by lia; rewrite !mul_exact by lia;
      do 2 f_equal; lia. }
  split; [exact Hparse|]. unfold watchInterval. rewrite Hparse. cbn.
  destruct (unitMillis_positive _ _ Hu) as [Hpos _].
  destruct (decide (n = 0%N)) as [->|Hn]; [reflexivity|].
  destruct (Z.eqb_spec (Z.of_N n * millis) 0); [nia|reflexivity].
Qed.

Lemma parseDuration_reads_witness :
  parseDuration (pretty 30%N ++ String "m" EmptyString)
  = Some (Number.Finite (Z.of_N 30 * (60 * 1000)))
  /\ watchInterval (pretty 30%N ++ String "m" EmptyString)
     = if decide (30%N = 0%N) then None
       else Some (Number.Finite (Z.of_N 30 * (60 * 1000))).
Proof. apply parseDuration_reads; [reflexivity|lia]. Defined.

(** Beyond the safe integers the digits are rounded to a double before
    they are multiplied. *)
Example parseDuration_rounds :
  parseDuration "9007199254740993s"
  = Some (Number.Finite 9007199254740992000).
Proof. vm_compute. reflexivity. Qed.

Lemma digits_last (acc : N) (s front : string) (last : ascii) (n : N) :
  Str.digits acc s = Some n -> splitLast s = Some (front, last) ->
  Str.isDigit last = true.
Proof.
  revert acc front. induction s as [|c s IH]; intros acc front; [discriminate|].
  cbn [Str.digits splitLast].
  destruct (Str.isDigit c) eqn:Hc; [|discriminate]. intros Hd.
  destruct s as [|c' s'].
  - intros [= _ <-]. exact Hc.
  - destruct (splitLast (String c' s')) as [[front' last']|] eqn:E;
      [|discriminate].
    intros [= _ <-]. apply (IH _ _ Hd eq_refl).
Qed.

(** X30. [parseDuration] rejects what is not a number with a unit: the
    empty string, a number without unit, a unit without number, and a
    number followed by a character that is no unit. *)
Theorem parseDuration_rejects (n : N) (u : ascii) :
  parseDuration EmptyString = None
  /\ parseDuration (pretty n) = None
  /\ parseDuration (String u EmptyString) = None
  /\ (unitMillis u = None ->
      parseDuration (pretty n ++ String u EmptyString) = None).
Proof.
  split; [reflexivity|]. split; [|split].
  - unfold parseDuration.
    destruct (splitLast (pretty n)) as [[[|c number] last]|] eqn:E;
      try reflexivity.
    pose proof (digits_last _ _ _ _ _ (digits_pretty n) E) as Hlast.
    destruct (Str.digits 0 (String c number)); [|reflexivity].
    destruct (unitMillis last) as [millis|] eqn:Hu.
    + destruct (unitMillis_positive _ _ Hu) as [_ Hnot]. congruence.
    + destruct (unitMillis_none _ Hu) as (-> & -> & -> & ->). reflexivity.
  - reflexivity.
  - intros Hu. unfold parseDuration. rewrite splitLast_app.
    destruct (unitMillis_none _ Hu) as (-> & -> & -> & ->).
    destruct (pretty n); [reflexivity|].
    destruct (Str.digits 0 _); reflexivity.
Qed.
